(** * ParallelZipFile: a shallow embedding of [parallelzipfile.py]

    The development follows the Python module top to bottom:

    - Python values the module works with: [bytes] objects with their
      slicing, [rstrip] and [rfind]; [struct.unpack] for the little-endian
      formats the module uses; [str] as a list of code points; a [dict] with
      insertion order; exceptions as an error monad;
    - what the module imports and does not define (the text codecs, zlib,
      lzma) as a class [Runtime];
    - [ZipInfo], [_read_eocd_mmap], [read_files] and the methods of
      [ParallelZipFile];
    - the properties of the specification, one theorem each. *)

From Stdlib Require Import String Ascii Strings.Byte ZArith Bool Lia List.
From Stdlib Require Import DecimalString DecimalZ Permutation.
Import ListNotations.

Local Open Scope Z_scope.

(** ** Python values *)

(** A [bytes] object. *)
Definition bytes := list byte.

(** A [str]: the sequence of its Unicode code points. *)
Definition str := list Z.

Definition byte_val (b : byte) : Z := Z.of_N (Byte.to_N b).

Definition byte_eqb (a b : byte) : bool := Byte.eqb a b.

Fixpoint bytes_eqb (a b : bytes) : bool :=
  match a, b with
  | [], [] => true
  | x :: a', y :: b' => byte_eqb x y && bytes_eqb a' b'
  | _, _ => false
  end.

Fixpoint str_eqb (a b : str) : bool :=
  match a, b with
  | [], [] => true
  | x :: a', y :: b' => (x =? y) && str_eqb a' b'
  | _, _ => false
  end.

(** The code points of an ASCII literal of the source. *)
Fixpoint lit (s : string) : str :=
  match s with
  | EmptyString => []
  | String c s' => Z.of_N (N_of_ascii c) :: lit s'
  end.

(** [str(n)] and [f"{n}"] for an [int]. *)
Definition str_of_int (n : Z) : str := lit (NilZero.string_of_int (Z.to_int n)).

Definition len {A} (s : list A) : Z := Z.of_nat (List.length s).

(** *** Slicing: [s[start:stop]] with step 1

    An omitted bound is [None].  A negative bound counts from the end, and
    every bound is clamped to [0 .. len s]: a slice never raises. *)

Definition adjust_index (n i : Z) : Z :=
  if i <? 0 then Z.max 0 (i + n) else Z.min i n.

Definition slice {A} (s : list A) (start stop : option Z) : list A :=
  let n := len s in
  let a := match start with None => 0 | Some i => adjust_index n i end in
  let b := match stop with None => n | Some j => adjust_index n j end in
  firstn (Z.to_nat (b - a)) (skipn (Z.to_nat a) s).

(** *** [bytes.rstrip(b"\0")] *)

Definition is_nul (b : byte) : bool := byte_eqb b x00.

Fixpoint rstrip_nul (s : bytes) : bytes :=
  match s with
  | [] => []
  | b :: t =>
      match rstrip_nul t with
      | [] => if is_nul b then [] else [b]
      | t' => b :: t'
      end
  end.

(** *** [bytes.rfind(sub)]: the highest index where [sub] starts, or [-1] *)

Fixpoint starts_with (sub s : bytes) : bool :=
  match sub, s with
  | [], _ => true
  | _ :: _, [] => false
  | x :: sub', y :: s' => byte_eqb x y && starts_with sub' s'
  end.

Fixpoint rfind_from (sub s : bytes) (i : Z) : Z :=
  match s with
  | [] => if starts_with sub [] then i else -1
  | _ :: t =>
      let r := rfind_from sub t (i + 1) in
      if 0 <=? r then r else if starts_with sub s then i else -1
  end.

Definition rfind (s sub : bytes) : Z := rfind_from sub s 0.

(** *** Exceptions

    The exceptions the module raises or lets through.  [ValueError] and
    [NotImplementedError] carry their message; [struct_error] is
    [struct.error]; [DecompressError] stands for what zlib or lzma raise. *)

Inductive exn : Type :=
| AssertionError
| struct_error
| ValueError (msg : str)
| NotImplementedError (msg : str)
| OSError
| DecompressError.

Inductive result (A : Type) : Type :=
| Ok (a : A)
| Raise (e : exn).
Arguments Ok {A} a.
Arguments Raise {A} e.

Definition bind {A B} (r : result A) (k : A -> result B) : result B :=
  match r with
  | Ok a => k a
  | Raise e => Raise e
  end.

Notation "x <- r ;; k" := (bind r (fun x => k))
  (at level 61, r at next level, right associativity).
Notation "' pat <- r ;; k" :=
  (bind r (fun x => match x with pat => k end))
  (at level 61, pat pattern, r at next level, right associativity).
Notation "r ;;; k" := (bind r (fun _ => k))
  (at level 61, right associativity).

(** The [assert] statement. *)
Definition assert (b : bool) : result unit :=
  if b then Ok tt else Raise AssertionError.

(** *** [struct.unpack] for little-endian formats without padding *)

Inductive fmt : Type :=
| s_ (n : nat)   (* "ns": n raw bytes *)
| H              (* unsigned 16-bit *)
| I              (* unsigned 32-bit *)
| Q.             (* unsigned 64-bit *)

Inductive value : Type :=
| Vs (b : bytes)
| Vi (n : Z).

Definition fmt_size (f : fmt) : nat :=
  match f with
  | s_ n => n
  | H => 2%nat
  | I => 4%nat
  | Q => 8%nat
  end.

Fixpoint calcsize (fs : list fmt) : nat :=
  match fs with
  | [] => 0%nat
  | f :: fs' => (fmt_size f + calcsize fs')%nat
  end.

(** Little-endian unsigned integer. *)
Fixpoint le_int (b : bytes) : Z :=
  match b with
  | [] => 0
  | x :: t => byte_val x + 256 * le_int t
  end.

Fixpoint unpack_fields (fs : list fmt) (buf : bytes) : list value :=
  match fs with
  | [] => []
  | f :: fs' =>
      let chunk := firstn (fmt_size f) buf in
      let v := match f with s_ _ => Vs chunk | _ => Vi (le_int chunk) end in
      v :: unpack_fields fs' (skipn (fmt_size f) buf)
  end.

(** [struct.unpack("<...", buf)]: the buffer must have exactly the size of
    the format. *)
Definition unpack (fs : list fmt) (buf : bytes) : result (list value) :=
  if Nat.eqb (List.length buf) (calcsize fs) then Ok (unpack_fields fs buf)
  else Raise struct_error.

Definition unpack1 (f : fmt) (buf : bytes) : result Z :=
  vs <- unpack [f] buf ;;
  match vs with
  | [Vi n] => Ok n
  | _ => Raise struct_error
  end.

(** *** [repr] of a [bytes] object, as [str(filename_bytes)] gives it *)

Definition hex_digit (n : Z) : Z :=
  if n <? 10 then 48 + n else 97 + (n - 10).

Definition repr_byte (quote : Z) (b : byte) : str :=
  let c := byte_val b in
  if (c =? quote) || (c =? 92) then [92; c]
  else if c =? 9 then lit "\t"
  else if c =? 10 then lit "\n"
  else if c =? 13 then lit "\r"
  else if (c <? 32) || (127 <=? c) then
    lit "\x" ++ [hex_digit (c / 16); hex_digit (c mod 16)]
  else [c].

Definition bytes_repr (s : bytes) : str :=
  let has c := existsb (fun b => byte_val b =? c) s in
  let quote := if has 39 && negb (has 34) then 34 else 39 in
  lit "b" ++ [quote] ++ flat_map (repr_byte quote) s ++ [quote].

(** *** A [dict] with [str] keys

    An association list in insertion order without duplicate keys:
    assigning to a key that is present replaces the value and keeps the
    key's place, assigning to a new key appends it. *)

Section Dict.
Context {V : Type}.

Definition dict := list (str * V).

Fixpoint dict_get (d : dict) (k : str) : option V :=
  match d with
  | [] => None
  | (k', v) :: d' => if str_eqb k' k then Some v else dict_get d' k
  end.

(** [d[k] = v] *)
Fixpoint dict_set (d : dict) (k : str) (v : V) : dict :=
  match d with
  | [] => [(k, v)]
  | (k', v') :: d' =>
      if str_eqb k' k then (k', v) :: d' else (k', v') :: dict_set d' k v
  end.

(** [k in d] *)
Definition dict_mem (d : dict) (k : str) : bool :=
  match dict_get d k with Some _ => true | None => false end.

Definition keys (d : dict) : list str := map fst d.
Definition values (d : dict) : list V := map snd d.
End Dict.
Arguments dict V : clear implicits.

(** ** What the module imports

    [bytes.decode(encoding)] for the three encodings the module names
    ([None] is [UnicodeDecodeError]), [zlib.decompressobj(-zlib.MAX_WBITS)
    .decompress], [lzma._decode_filter_properties(lzma.FILTER_LZMA1, _)] and
    [lzma.LZMADecompressor(lzma.FORMAT_RAW, filters=[filt]).decompress]. *)

Inductive encoding : Type := utf_8 | windows_1252 | CP437.

Class Runtime : Type := {
  decode : encoding -> bytes -> option str;
  zlib_decompress_raw : bytes -> result bytes;
  lzma_filter : Type;
  lzma_decode_filter_properties : bytes -> result lzma_filter;
  lzma_decompress_raw : lzma_filter -> bytes -> result bytes
}.

(** An [mmap.mmap] object opened with [ACCESS_READ]: the bytes of the file
    and whether [close()] was called.  Slicing a closed map raises. *)
Record mmap : Type := {
  data : bytes;
  closed : bool
}.

Definition mmap_slice (m : mmap) (start stop : option Z) : result bytes :=
  if closed m then Raise (ValueError (lit "mmap closed or invalid"))
  else Ok (slice (data m) start stop).

(** ** [class ZipInfo] *)

Record ZipInfo : Type := {
  filename : str;
  header_offset : Z;
  CRC : Z;
  compress_size : Z;
  file_size : Z
}.

Fixpoint endswith (s suffix : str) : bool :=
  str_eqb s suffix ||
  match s with
  | [] => false
  | _ :: t => endswith t suffix
  end.

Definition is_dir (self : ZipInfo) : bool := endswith (filename self) (lit "/").

(** ** [_read_eocd_mmap] *)

Definition PK56 : bytes := [x50; x4b; x05; x06].
Definition PK67 : bytes := [x50; x4b; x06; x07].
Definition PK66 : bytes := [x50; x4b; x06; x06].
Definition PK12 : bytes := [x50; x4b; x01; x02].

Definition max_eocd_size : Z := 22 + 65536.

Section Zip.
Context {RT : Runtime}.

(** Lines 132-139: the [for encoding in ...: try ... else: raise] loop. *)
Fixpoint decode_filename_in (encodings : list encoding)
    (filename_bytes : bytes) : result str :=
  match encodings with
  | [] =>
      Raise (ValueError
               (lit "Could not decode filename " ++ bytes_repr filename_bytes))
  | encoding :: rest =>
      match decode encoding (rstrip_nul filename_bytes) with
      | Some filename => Ok filename
      | None => decode_filename_in rest filename_bytes
      end
  end.

Definition decode_filename (filename_bytes : bytes) : result str :=
  decode_filename_in [utf_8; windows_1252; CP437] filename_bytes.

(** Lines 143-158: the sizes and the offset after the zip64 extra field. *)
Definition zip64_extra (extra : bytes)
    (uncompressed_size compressed_size offset : Z) : result (Z * Z * Z) :=
  let extra := slice extra (Some 4) None in
  '(uncompressed_size, extra) <-
    (if uncompressed_size =? 0xFFFFFFFF then
       assert (8 <=? len extra) ;;;
       v <- unpack1 Q (slice extra None (Some 8)) ;;
       Ok (v, slice extra (Some 8) None)
     else Ok (uncompressed_size, extra)) ;;
  '(compressed_size, extra) <-
    (if compressed_size =? 0xFFFFFFFF then
       assert (8 <=? len extra) ;;;
       v <- unpack1 Q (slice extra None (Some 8)) ;;
       Ok (v, slice extra (Some 8) None)
     else Ok (compressed_size, extra)) ;;
  '(offset, extra) <-
    (if offset =? 0xFFFFFFFF then
       assert (8 <=? len extra) ;;;
       v <- unpack1 Q (slice extra (Some (-8)) None) ;;
       Ok (v, slice extra (Some 8) None)
     else Ok (offset, extra)) ;;
  Ok (uncompressed_size, compressed_size, offset).

(** Lines 103-166: one turn of the loop over the central directory, for
    the header at [mmap_offset]: the offset of the next header and the
    [ZipInfo] that the turn stores. *)
Definition central_directory_header (m : mmap) (mmap_offset : Z)
    : result (Z * ZipInfo) :=
  header <- mmap_slice m (Some mmap_offset) (Some (mmap_offset + 46)) ;;
  let mmap_offset := mmap_offset + 46 in
  fields <- unpack [s_ 4; H; H; H; H; H; H; I; I; I; H; H; H; H; H; I; I]
                   header ;;
  match fields with
  | [Vs signature; Vi version; Vi min_version; Vi unused0; Vi compression;
     Vi time; Vi date; Vi crc32; Vi compressed_size; Vi uncompressed_size;
     Vi filename_length; Vi extra_length; Vi comment_length; Vi unused1;
     Vi attributes0; Vi attributes1; Vi offset] =>
      assert (bytes_eqb signature PK12) ;;;
      filename_bytes <-
        mmap_slice m (Some mmap_offset) (Some (mmap_offset + filename_length)) ;;
      let mmap_offset := mmap_offset + filename_length in
      extra <-
        mmap_slice m (Some mmap_offset) (Some (mmap_offset + extra_length)) ;;
      let mmap_offset := mmap_offset + (extra_length + comment_length) in
      filename <- decode_filename filename_bytes ;;
      '(uncompressed_size, compressed_size, offset) <-
        zip64_extra extra uncompressed_size compressed_size offset ;;
      Ok (mmap_offset,
          {| filename := filename;
             header_offset := offset;
             CRC := crc32;
             compress_size := compressed_size;
             file_size := uncompressed_size |})
  | _ => Raise struct_error
  end.

(** Lines 100-168: [for _ in range(num_files)], with [files[filename] =
    info] at the end of each turn. *)
Fixpoint central_directory (m : mmap) (turns : nat) (mmap_offset : Z)
    (files : dict ZipInfo) : result (dict ZipInfo) :=
  match turns with
  | O => Ok files
  | S turns' =>
      '(mmap_offset, info) <- central_directory_header m mmap_offset ;;
      central_directory m turns' mmap_offset
        (dict_set files (filename info) info)
  end.

(** The [ZipInfo] of every turn of the loop, in the order of the turns,
    and the offset the last turn leaves. *)
Fixpoint headers (m : mmap) (turns : nat) (mmap_offset : Z)
    : result (Z * list ZipInfo) :=
  match turns with
  | O => Ok (mmap_offset, [])
  | S turns' =>
      '(mmap_offset, info) <- central_directory_header m mmap_offset ;;
      '(mmap_offset, rest) <- headers m turns' mmap_offset ;;
      Ok (mmap_offset, info :: rest)
  end.

(** Lines 50-96: the number of files and the offset of the central
    directory, from the end-of-central-directory record and, when there
    is a locator, from the zip64 record. *)
Definition end_of_central_directory (m : mmap) : result (Z * Z) :=
  end_ <- mmap_slice m (Some (- max_eocd_size)) None ;;
  let offset32 := rfind end_ PK56 in
  assert (0 <=? offset32) ;;;
  eocd <- unpack [s_ 4; H; H; H; H; I; I; H]
                 (slice end_ (Some offset32) (Some (offset32 + 22))) ;;
  match eocd with
  | [Vs signature; Vi num_disks; Vi num_disks2; Vi num_files; Vi num_files2;
     Vi directory_size; Vi directory_offset; Vi comment_length] =>
      assert (bytes_eqb signature PK56) ;;;
      let locator_offset := rfind end_ PK67 in
      if negb (locator_offset =? -1) then
        offset <- unpack1 Q (slice end_ (Some (locator_offset + 8))
                                        (Some (locator_offset + 16))) ;;
        eocd64_data <- mmap_slice m (Some offset) (Some (offset + 56)) ;;
        eocd64 <- unpack [s_ 4; Q; H; H; I; I; Q; Q; Q; Q] eocd64_data ;;
        match eocd64 with
        | [Vs eocd64_signature; Vi eocd_size; Vi version; Vi min_version;
           Vi num_disks; Vi num_disks2; Vi num_files; Vi num_files2;
           Vi directory_size; Vi directory_offset] =>
            assert (bytes_eqb eocd64_signature PK66) ;;;
            Ok (num_files, directory_offset)
        | _ => Raise struct_error
        end
      else Ok (num_files, directory_offset)
  | _ => Raise struct_error
  end.

Definition _read_eocd_mmap (m : mmap) : result (dict ZipInfo) :=
  '(num_files, directory_offset) <- end_of_central_directory m ;;
  central_directory m (Z.to_nat num_files) directory_offset [].

(** ** [read_files]

    The files of the machine: the bytes stored under each path.
    [open(filename, "rb")] raises when there is no such file, and
    [mmap.mmap(f.fileno(), length=0, ...)] raises on an empty one. *)
Definition filesystem := str -> option bytes.

Definition open_mmap (fs : filesystem) (file : str) : result mmap :=
  match fs file with
  | None => Raise OSError
  | Some b =>
      if len b =? 0 then Raise (ValueError (lit "cannot mmap an empty file"))
      else Ok {| data := b; closed := false |}
  end.

Definition read_files (fs : filesystem) (filename : str)
    : result (dict ZipInfo) :=
  m <- open_mmap fs filename ;;
  _read_eocd_mmap m.

(** ** [class ParallelZipFile] *)

Record ParallelZipFile : Type := {
  self_filename : str;
  files : dict ZipInfo;
  f_closed : bool;       (* the file object [f] *)
  m : mmap
}.

Definition __init__ (fs : filesystem) (file mode : str)
    (files : option (dict ZipInfo)) : result ParallelZipFile :=
  assert (str_eqb mode (lit "r")) ;;;
  m <- open_mmap fs file ;;
  files <- match files with
           | None => _read_eocd_mmap m
           | Some files => Ok files
           end ;;
  Ok {| self_filename := file; files := files; f_closed := false; m := m |}.

Definition __contains__ (self : ParallelZipFile) (filename : str) : bool :=
  dict_mem (files self) filename.

Definition close (self : ParallelZipFile) : ParallelZipFile :=
  {| self_filename := self_filename self;
     files := files self;
     f_closed := true;
     m := {| data := data (m self); closed := true |} |}.

Definition namelist (self : ParallelZipFile) : list str :=
  keys (files self).

Definition infolist (self : ParallelZipFile) : list ZipInfo :=
  values (files self).

(** Lines 272-288 of [read]: the branches on the compression method. *)
Definition decompress (compression : Z) (compressed : bytes) : result bytes :=
  if compression =? 0 then Ok compressed
  else if compression =? 8 then zlib_decompress_raw compressed
  else if compression =? 14 then
    hh <- unpack [H; H] (slice compressed None (Some 4)) ;;
    match hh with
    | [Vi _; Vi size] =>
        assert (4 + size <=? len compressed) ;;;
        filt <- lzma_decode_filter_properties
                  (slice compressed (Some 4) (Some (4 + size))) ;;
        lzma_decompress_raw filt (slice compressed (Some (4 + size)) None)
    | _ => Raise struct_error
    end
  else
    Raise (NotImplementedError
             (lit "Compression method " ++ str_of_int compression ++
              lit " not implemented")).

Definition read (self : ParallelZipFile) (filename : str) : result bytes :=
  let files := files self in
  match dict_get files filename with
  | None => Raise (ValueError (filename ++ lit " does not exist"))
  | Some fileinfo =>
      let offset := header_offset fileinfo in
      let m := m self in
      header <- mmap_slice m (Some offset) (Some (offset + 30)) ;;
      if len header <? 30 then
        Raise (ValueError
                 (lit "Header for " ++ filename ++ lit " too small (" ++
                  str_of_int (len header) ++
                  lit " bytes, but must be at least 30 bytes)"))
      else
        fields <- unpack [I; H; H; H; H; H; I; I; I; H; H] header ;;
        match fields with
        | [Vi signature; Vi version; Vi unused; Vi compression; Vi time;
           Vi date; Vi crc32; Vi compressed_size; Vi uncompressed_size;
           Vi filename_length; Vi extra_length] =>
            let compressed_size :=
              if negb (compressed_size =? compress_size fileinfo)
              then compress_size fileinfo else compressed_size in
            let offset := offset + (30 + filename_length + extra_length) in
            compressed <-
              mmap_slice m (Some offset) (Some (offset + compressed_size)) ;;
            assert (signature =? 0x4034B50) ;;;
            decompress compression compressed
        | _ => Raise struct_error
        end
  end.

(** A sequence of calls on one [ParallelZipFile] object: each call gives
    its reply and the object as the call leaves it. *)
Inductive call : Type :=
| call_read (filename : str)
| call_contains (filename : str)
| call_namelist
| call_infolist
| call_close.

Inductive reply : Type :=
| reply_read (r : result bytes)
| reply_contains (b : bool)
| reply_namelist (l : list str)
| reply_infolist (l : list ZipInfo)
| reply_close.

Definition step (self : ParallelZipFile) (c : call)
    : reply * ParallelZipFile :=
  match c with
  | call_read filename => (reply_read (read self filename), self)
  | call_contains filename => (reply_contains (__contains__ self filename), self)
  | call_namelist => (reply_namelist (namelist self), self)
  | call_infolist => (reply_infolist (infolist self), self)
  | call_close => (reply_close, close self)
  end.

Fixpoint run (self : ParallelZipFile) (cs : list call) : list reply :=
  match cs with
  | [] => []
  | c :: cs' => let '(r, self') := step self c in r :: run self' cs'
  end.

(** The object after the calls. *)
Definition after (self : ParallelZipFile) (cs : list call) : ParallelZipFile :=
  fold_left (fun self c => snd (step self c)) cs self.
End Zip.

(** ** A runtime to run the module on concrete archives

    The three codecs as CPython has them: strict UTF-8, and the character
    maps of cp1252 (five bytes undefined) and cp437 (total).  zlib and lzma
    are not modelled: in this runtime they reject every input, and the
    archives below hold stored entries only. *)

Definition is_cont (c : Z) : bool := (0x80 <=? c) && (c <=? 0xBF).

Fixpoint utf8_decode (s : bytes) : option str :=
  match s with
  | [] => Some []
  | b0 :: t =>
      let c0 := byte_val b0 in
      if c0 <? 0x80 then option_map (cons c0) (utf8_decode t)
      else if (0xC2 <=? c0) && (c0 <=? 0xDF) then
        match t with
        | b1 :: t1 =>
            let c1 := byte_val b1 in
            if is_cont c1
            then option_map (cons ((c0 - 0xC0) * 64 + (c1 - 0x80)))
                            (utf8_decode t1)
            else None
        | _ => None
        end
      else if (0xE0 <=? c0) && (c0 <=? 0xEF) then
        match t with
        | b1 :: b2 :: t2 =>
            let c1 := byte_val b1 in
            let c2 := byte_val b2 in
            let cp := (c0 - 0xE0) * 4096 + (c1 - 0x80) * 64 + (c2 - 0x80) in
            if is_cont c1 && is_cont c2 && (0x800 <=? cp)
               && negb ((0xD800 <=? cp) && (cp <=? 0xDFFF))
            then option_map (cons cp) (utf8_decode t2)
            else None
        | _ => None
        end
      else if (0xF0 <=? c0) && (c0 <=? 0xF4) then
        match t with
        | b1 :: b2 :: b3 :: t3 =>
            let c1 := byte_val b1 in
            let c2 := byte_val b2 in
            let c3 := byte_val b3 in
            let cp := (c0 - 0xF0) * 262144 + (c1 - 0x80) * 4096
                      + (c2 - 0x80) * 64 + (c3 - 0x80) in
            if is_cont c1 && is_cont c2 && is_cont c3
               && (0x10000 <=? cp) && (cp <=? 0x10FFFF)
            then option_map (cons cp) (utf8_decode t3)
            else None
        | _ => None
        end
      else None
  end.

(** Bytes [0x80 .. 0x9F] of cp1252; the others map to themselves. *)
Definition cp1252_high : list (option Z) :=
  [Some 0x20AC; None; Some 0x201A; Some 0x0192; Some 0x201E; Some 0x2026;
   Some 0x2020; Some 0x2021; Some 0x02C6; Some 0x2030; Some 0x0160;
   Some 0x2039; Some 0x0152; None; Some 0x017D; None;
   None; Some 0x2018; Some 0x2019; Some 0x201C; Some 0x201D; Some 0x2022;
   Some 0x2013; Some 0x2014; Some 0x02DC; Some 0x2122; Some 0x0161;
   Some 0x203A; Some 0x0153; None; Some 0x017E; Some 0x0178].

(** Bytes [0x80 .. 0xFF] of cp437; the others map to themselves. *)
Definition cp437_high : list Z :=
  [0x00C7; 0x00FC; 0x00E9; 0x00E2; 0x00E4; 0x00E0; 0x00E5; 0x00E7;
   0x00EA; 0x00EB; 0x00E8; 0x00EF; 0x00EE; 0x00EC; 0x00C4; 0x00C5;
   0x00C9; 0x00E6; 0x00C6; 0x00F4; 0x00F6; 0x00F2; 0x00FB; 0x00F9;
   0x00FF; 0x00D6; 0x00DC; 0x00A2; 0x00A3; 0x00A5; 0x20A7; 0x0192;
   0x00E1; 0x00ED; 0x00F3; 0x00FA; 0x00F1; 0x00D1; 0x00AA; 0x00BA;
   0x00BF; 0x2310; 0x00AC; 0x00BD; 0x00BC; 0x00A1; 0x00AB; 0x00BB;
   0x2591; 0x2592; 0x2593; 0x2502; 0x2524; 0x2561; 0x2562; 0x2556;
   0x2555; 0x2563; 0x2551; 0x2557; 0x255D; 0x255C; 0x255B; 0x2510;
   0x2514; 0x2534; 0x252C; 0x251C; 0x2500; 0x253C; 0x255E; 0x255F;
   0x255A; 0x2554; 0x2569; 0x2566; 0x2560; 0x2550; 0x256C; 0x2567;
   0x2568; 0x2564; 0x2565; 0x2559; 0x2558; 0x2552; 0x2553; 0x256B;
   0x256A; 0x2518; 0x250C; 0x2588; 0x2584; 0x258C; 0x2590; 0x2580;
   0x03B1; 0x00DF; 0x0393; 0x03C0; 0x03A3; 0x03C3; 0x00B5; 0x03C4;
   0x03A6; 0x0398; 0x03A9; 0x03B4; 0x221E; 0x03C6; 0x03B5; 0x2229;
   0x2261; 0x00B1; 0x2265; 0x2264; 0x2320; 0x2321; 0x00F7; 0x2248;
   0x00B0; 0x2219; 0x00B7; 0x221A; 0x207F; 0x00B2; 0x25A0; 0x00A0].

Definition cp1252_char (c : Z) : option Z :=
  if (0x80 <=? c) && (c <? 0xA0)
  then nth (Z.to_nat (c - 0x80)) cp1252_high None
  else Some c.

Definition cp437_char (c : Z) : option Z :=
  if 0x80 <=? c then Some (nth (Z.to_nat (c - 0x80)) cp437_high 0)
  else Some c.

Fixpoint charmap_decode (table : Z -> option Z) (s : bytes) : option str :=
  match s with
  | [] => Some []
  | b :: t =>
      match table (byte_val b), charmap_decode table t with
      | Some c, Some r => Some (c :: r)
      | _, _ => None
      end
  end.

Definition codecs_decode (e : encoding) : bytes -> option str :=
  match e with
  | utf_8 => utf8_decode
  | windows_1252 => charmap_decode cp1252_char
  | CP437 => charmap_decode cp437_char
  end.

Definition codecs_only : Runtime := {|
  decode := codecs_decode;
  zlib_decompress_raw := fun _ => Raise DecompressError;
  lzma_filter := unit;
  lzma_decode_filter_properties := fun _ => Raise DecompressError;
  lzma_decompress_raw := fun _ _ => Raise DecompressError
|}.

(** ** Archives for the examples *)

Definition byte_of (n : Z) : byte :=
  match Byte.of_N (Z.to_N (n mod 256)) with
  | Some b => b
  | None => x00
  end.

(** [n] as [w] little-endian bytes. *)
Fixpoint le (w : nat) (n : Z) : bytes :=
  match w with
  | O => []
  | S w' => byte_of n :: le w' (n / 256)
  end.

Fixpoint ascii_bytes (s : string) : bytes :=
  match s with
  | EmptyString => []
  | String c s' => byte_of (Z.of_N (N_of_ascii c)) :: ascii_bytes s'
  end.

(** A local file header with its name, extra field and data. *)
Definition local_file (signature method crc csize usize : Z)
    (name extra content : bytes) : bytes :=
  le 4 signature ++ le 2 20 ++ le 2 0 ++ le 2 method ++ le 2 0 ++ le 2 0 ++
  le 4 crc ++ le 4 csize ++ le 4 usize ++ le 2 (len name) ++ le 2 (len extra) ++
  name ++ extra ++ content.

(** A central directory header with its name, extra field and comment. *)
Definition central_header (method crc csize usize offset : Z)
    (name extra comment : bytes) : bytes :=
  PK12 ++ le 2 20 ++ le 2 20 ++ le 2 0 ++ le 2 method ++ le 2 0 ++ le 2 0 ++
  le 4 crc ++ le 4 csize ++ le 4 usize ++
  le 2 (len name) ++ le 2 (len extra) ++ le 2 (len comment) ++
  le 2 0 ++ le 2 0 ++ le 4 0 ++ le 4 offset ++
  name ++ extra ++ comment.

(** An end-of-central-directory record. *)
Definition end_record (num_files directory_size directory_offset : Z)
    (comment : bytes) : bytes :=
  PK56 ++ le 2 0 ++ le 2 0 ++ le 2 num_files ++ le 2 num_files ++
  le 4 directory_size ++ le 4 directory_offset ++ le 2 (len comment) ++ comment.

Definition opened (b : bytes) : mmap := {| data := b; closed := false |}.

(** "a.txt" stored with content "hi" at offset 0, whose local header gives
    0 as compressed size; "z.bin" with method 99 at offset 37. *)
Definition archive_two : bytes :=
  local_file 0x4034B50 0 0x11 0 2 (ascii_bytes "a.txt") [] (ascii_bytes "hi") ++
  local_file 0x4034B50 99 0x22 2 2 (ascii_bytes "z.bin") [] (ascii_bytes "??") ++
  central_header 0 0x11 2 2 0 (ascii_bytes "a.txt") [] [] ++
  central_header 99 0x22 2 2 37 (ascii_bytes "z.bin") [] [] ++
  end_record 2 102 74 [].

(** A central directory that names "a" twice, with "b" in between. *)
Definition archive_dup : bytes :=
  central_header 0 0x11 1 1 100 (ascii_bytes "a") [] [] ++
  central_header 0 0x22 2 2 200 (ascii_bytes "b") [] [] ++
  central_header 0 0x33 3 3 300 (ascii_bytes "a") [] [] ++
  end_record 3 141 0 [].

(** One entry whose stored name is "a" followed by two NUL bytes. *)
Definition archive_nul : bytes :=
  central_header 0 0x11 1 1 100 [x61; x00; x00] [] [] ++
  end_record 1 49 0 [].

(** One entry whose 32-bit offset is the sentinel.  Its extra field holds
    the zip64 block (id 1, 8 bytes: offset 5) and then a second block (id
    0x5455, 5 bytes). *)
Definition extra_zip64_then_ut : bytes :=
  le 2 1 ++ le 2 8 ++ le 8 5 ++
  le 2 0x5455 ++ le 2 5 ++ [x01; x02; x03; x04; x05].

Definition archive_zip64_offset : bytes :=
  central_header 0 0x11 1 1 0xFFFFFFFF (ascii_bytes "a") extra_zip64_then_ut [] ++
  end_record 1 68 0 [].

(** "a.txt" stored, recorded with a compressed size of 1000 in an archive of
    110 bytes. *)
Definition archive_short : bytes :=
  local_file 0x4034B50 0 0x11 1000 1000 (ascii_bytes "a.txt") [] (ascii_bytes "hi") ++
  central_header 0 0x11 1000 1000 0 (ascii_bytes "a.txt") [] [] ++
  end_record 1 51 37 [].

Definition zip_of (b : bytes) (files : dict ZipInfo) : ParallelZipFile :=
  {| self_filename := lit "example.zip";
     files := files;
     f_closed := false;
     m := opened b |}.

Definition disk (b : bytes) : filesystem := fun _ => Some b.

Definition info_a1 : ZipInfo :=
  {| filename := lit "a"; header_offset := 100; CRC := 0x11;
     compress_size := 1; file_size := 1 |}.
Definition info_b : ZipInfo :=
  {| filename := lit "b"; header_offset := 200; CRC := 0x22;
     compress_size := 2; file_size := 2 |}.
Definition info_a2 : ZipInfo :=
  {| filename := lit "a"; header_offset := 300; CRC := 0x33;
     compress_size := 3; file_size := 3 |}.

Definition zip_dup : ParallelZipFile :=
  zip_of archive_dup [(lit "a", info_a2); (lit "b", info_b)].

Definition info_a_txt : ZipInfo :=
  {| filename := lit "a.txt"; header_offset := 0; CRC := 0x11;
     compress_size := 2; file_size := 2 |}.
Definition info_z_bin : ZipInfo :=
  {| filename := lit "z.bin"; header_offset := 37; CRC := 0x22;
     compress_size := 2; file_size := 2 |}.

Definition zip_two : ParallelZipFile :=
  zip_of archive_two [(lit "a.txt", info_a_txt); (lit "z.bin", info_z_bin)].

Definition info_short : ZipInfo :=
  {| filename := lit "a.txt"; header_offset := 0; CRC := 0x11;
     compress_size := 1000; file_size := 1000 |}.

Definition zip_short : ParallelZipFile :=
  zip_of archive_short [(lit "a.txt", info_short)].

(** A file system with [archive_two] under one path and nothing else. *)
Definition one_file : filesystem :=
  fun path => if str_eqb path (lit "example.zip") then Some archive_two else None.

(** One entry whose stored name is the single byte 0xE9: not UTF-8, and
    "e" with an acute accent in cp1252. *)
Definition archive_latin : bytes :=
  central_header 0 0x11 1 1 100 [xe9] [] [] ++
  end_record 1 47 0 [].

Definition info_latin : ZipInfo :=
  {| filename := [0xE9]; header_offset := 100; CRC := 0x11;
     compress_size := 1; file_size := 1 |}.

Definition info_nul : ZipInfo :=
  {| filename := lit "a"; header_offset := 100; CRC := 0x11;
     compress_size := 1; file_size := 1 |}.

Definition info_zip64_offset : ZipInfo :=
  {| filename := lit "a"; header_offset := 0x0504030201000554; CRC := 0x11;
     compress_size := 1; file_size := 1 |}.

(** How many bytes of the extra field a 32-bit field takes: 8 when it is
    the sentinel, none otherwise. *)
Definition zip64_width (field : Z) : nat :=
  if field =? 0xFFFFFFFF then 8%nat else 0%nat.

Definition not_a_zip : bytes := ascii_bytes "PK is not enough".

(** A list without its repetitions, each element at the place of its first
    occurrence. *)
Fixpoint first_occurrences (l : list str) : list str :=
  match l with
  | [] => []
  | k :: t => k :: filter (fun k' => negb (str_eqb k k')) (first_occurrences t)
  end.

(** The last element of [infos] with the file name [k]. *)
Definition last_named (infos : list ZipInfo) (k : str) : option ZipInfo :=
  find (fun i => str_eqb (filename i) k) (rev infos).

(** The dictionary after [files[filename] = info] for each of [infos] in
    turn. *)
Definition store_all (infos : list ZipInfo) (files : dict ZipInfo)
    : dict ZipInfo :=
  fold_left (fun d info => dict_set d (filename info) info) infos files.

Definition unseen (seen : list str) (k : str) : bool :=
  negb (existsb (str_eqb k) seen).

(** Every value is stored under its own file name. *)
Definition self_named (d : dict ZipInfo) : Prop :=
  Forall (fun kv => filename (snd kv) = fst kv) d.

(** The 30 bytes at [offset] unpack as a local file header with these
    fields. *)
Definition local_header_at (data : bytes) (offset : Z)
    (signature compression compressed_size filename_length extra_length : Z)
    : Prop :=
  exists version unused time date crc32 uncompressed_size,
    unpack [I; H; H; H; H; H; I; I; I; H; H]
           (slice data (Some offset) (Some (offset + 30)))
    = Ok [Vi signature; Vi version; Vi unused; Vi compression; Vi time;
          Vi date; Vi crc32; Vi compressed_size; Vi uncompressed_size;
          Vi filename_length; Vi extra_length].

(** The 46 bytes at [offset] unpack as a central directory header with the
    signature "PK\1\2" and these fields. *)
Definition central_header_at (data : bytes) (offset : Z)
    (crc32 compressed_size uncompressed_size
     filename_length extra_length comment_length header_offset : Z) : Prop :=
  exists version min_version unused0 compression time date
         unused1 attributes0 attributes1,
    unpack [s_ 4; H; H; H; H; H; H; I; I; I; H; H; H; H; H; I; I]
           (slice data (Some offset) (Some (offset + 46)))
    = Ok [Vs PK12; Vi version; Vi min_version; Vi unused0; Vi compression;
          Vi time; Vi date; Vi crc32; Vi compressed_size;
          Vi uncompressed_size; Vi filename_length; Vi extra_length;
          Vi comment_length; Vi unused1; Vi attributes0; Vi attributes1;
          Vi header_offset].

Definition is_some {A} (o : option A) : bool :=
  match o with Some _ => true | None => false end.

(** [s] holds [sub] somewhere. *)
Definition occurs (sub s : bytes) : Prop :=
  exists before after, s = before ++ sub ++ after.

(** [sub] starts in [s] at [before] and nowhere after. *)
Definition last_at (sub s : bytes) (before : nat) : Prop :=
  starts_with sub (skipn before s) = true /\
  ~ occurs sub (skipn (S before) s).

(** The fields of a [ZipInfo] are what unsigned 32-bit and 64-bit fields
    hold. *)
Definition in_range (info : ZipInfo) : Prop :=
  0 <= CRC info < 2 ^ 32 /\
  0 <= compress_size info < 2 ^ 64 /\
  0 <= file_size info < 2 ^ 64 /\
  0 <= header_offset info < 2 ^ 64.

(** A zip64 end-of-central-directory record and its locator. *)
Definition zip64_end_record (num_files directory_size directory_offset : Z)
    : bytes :=
  PK66 ++ le 8 44 ++ le 2 45 ++ le 2 45 ++ le 4 0 ++ le 4 0 ++
  le 8 num_files ++ le 8 num_files ++ le 8 directory_size ++
  le 8 directory_offset.

Definition zip64_locator (offset : Z) : bytes :=
  PK67 ++ le 4 0 ++ le 8 offset ++ le 4 1.

(** One entry "a"; the end record counts 7 files at offset 999, the zip64
    record, at offset 47, counts 1 file at offset 0. *)
Definition archive_zip64 : bytes :=
  central_header 0 0x11 1 1 100 (ascii_bytes "a") [] [] ++
  zip64_end_record 1 47 0 ++
  zip64_locator 47 ++
  end_record 7 47 999 [].

(** An archive that starts with the 22 bytes of an end record for an empty
    directory, followed by a directory with one entry and its own end
    record. *)
Definition archive_decoy : bytes :=
  end_record 0 0 0 [] ++
  central_header 0 0x11 1 1 100 (ascii_bytes "a") [] [] ++
  end_record 1 47 22 [].

(** [archive_two] with the four bytes "PK\6\7" as the comment of its end
    record. *)
Definition archive_comment_locator : bytes :=
  local_file 0x4034B50 0 0x11 0 2 (ascii_bytes "a.txt") [] (ascii_bytes "hi") ++
  local_file 0x4034B50 99 0x22 2 2 (ascii_bytes "z.bin") [] (ascii_bytes "??") ++
  central_header 0 0x11 2 2 0 (ascii_bytes "a.txt") [] [] ++
  central_header 99 0x22 2 2 37 (ascii_bytes "z.bin") [] [] ++
  end_record 2 102 74 PK67.

(** A runtime in which lzma takes every properties blob as the filter and
    returns every stream as it is.  It stands for an lzma that accepts the
    stream of [archive_lzma]; what it returns plays no part below. *)
Definition lzma_accepts : Runtime := {|
  decode := codecs_decode;
  zlib_decompress_raw := fun _ => Raise DecompressError;
  lzma_filter := bytes;
  lzma_decode_filter_properties := fun props => Ok props;
  lzma_decompress_raw := fun _ stream => Ok stream
|}.

(** The data of an LZMA entry: 2 bytes of version, the size 5 of the
    properties, the 5 bytes of the properties, and a stream of 6 bytes. *)
Definition lzma_data : bytes :=
  [x09; x14] ++ le 2 5 ++ [x5d; x00; x00; x80; x00] ++
  [x00; x01; x02; x03; x04; x05].

(** A local file header for "x" with method 14, and its 15 bytes of data
    from byte 31 on. *)
Definition archive_lzma : bytes :=
  local_file 0x4034B50 14 0x11 15 6 (ascii_bytes "x") [] lzma_data.

Definition info_lzma : ZipInfo :=
  {| filename := lit "x"; header_offset := 0; CRC := 0x11;
     compress_size := 15; file_size := 6 |}.

(** An object over the first [n] bytes of [archive_lzma], with the index
    of the whole archive. *)
Definition zip_lzma (n : nat) : ParallelZipFile :=
  zip_of (firstn n archive_lzma) [(lit "x", info_lzma)].

(** [archive_latin] with an end record that counts two files. *)
Definition archive_overcount : bytes :=
  central_header 0 0x11 1 1 100 [xe9] [] [] ++
  end_record 2 47 0 [].

(** [archive_two] with an end record that places the directory at 0, where
    the first local file header is. *)
Definition archive_wrong_offset : bytes :=
  local_file 0x4034B50 0 0x11 0 2 (ascii_bytes "a.txt") [] (ascii_bytes "hi") ++
  local_file 0x4034B50 99 0x22 2 2 (ascii_bytes "z.bin") [] (ascii_bytes "??") ++
  central_header 0 0x11 2 2 0 (ascii_bytes "a.txt") [] [] ++
  central_header 99 0x22 2 2 37 (ascii_bytes "z.bin") [] [] ++
  end_record 2 102 0 [].

(** An index over [archive_two] whose entries point 8 bytes before the end
    of the archive and at the first central directory header. *)
Definition info_late : ZipInfo :=
  {| filename := lit "late"; header_offset := 190; CRC := 0;
     compress_size := 2; file_size := 2 |}.
Definition info_directory : ZipInfo :=
  {| filename := lit "dir"; header_offset := 74; CRC := 0;
     compress_size := 2; file_size := 2 |}.

Definition zip_astray : ParallelZipFile :=
  zip_of archive_two [(lit "late", info_late); (lit "dir", info_directory)].

(** "a.txt" of [archive_two] with another checksum, size and name. *)
Definition info_a_other : ZipInfo :=
  {| filename := lit "b.txt"; header_offset := 0; CRC := 0x99;
     compress_size := 2; file_size := 7 |}.

Definition zip_two_other : ParallelZipFile :=
  zip_of archive_two [(lit "a.txt", info_a_other)].

(** ** [plot_benchmark.py]

    [groupby]: a [defaultdict(list)] as an association list in insertion
    order; [groups[key].append(value)] adds the key with an empty list when
    it is new, and appends to the key's list. *)

Section GroupBy.
Context {A K : Type} (key_eqb : K -> K -> bool).

Fixpoint append_to (groups : list (K * list A)) (key : K) (value : A)
    : list (K * list A) :=
  match groups with
  | [] => [(key, [value])]
  | (k, vs) :: rest =>
      if key_eqb k key then (k, vs ++ [value]) :: rest
      else (k, vs) :: append_to rest key value
  end.

Definition groupby (values : list A) (keyfunc : A -> K) : list (K * list A) :=
  fold_left (fun groups value => append_to groups (keyfunc value) value)
            values [].

(** [groups[key]] without the default: [None] for a key that is not there. *)
Fixpoint group_of (groups : list (K * list A)) (key : K) : option (list A) :=
  match groups with
  | [] => None
  | (k, vs) :: rest => if key_eqb k key then Some vs else group_of rest key
  end.

(** [k] is not among the keys seen. *)
Definition new_key (seen : list K) (k : K) : bool :=
  negb (existsb (key_eqb k) seen).

(** The keys of a list in the order of their first occurrence. *)
Fixpoint first_keys (l : list K) : list K :=
  match l with
  | [] => []
  | k :: t => k :: filter (fun k' => negb (key_eqb k k')) (first_keys t)
  end.
End GroupBy.

(** Line 42: the label of a curve,
    [f"{zipfile} - {threadcount} Thread{'s'[:threadcount-1]}"]. *)
Definition curve_label (zipfile : str) (threadcount : Z) : str :=
  zipfile ++ lit " - " ++ str_of_int threadcount ++ lit " Thread" ++
  slice (lit "s") None (Some (threadcount - 1)).

(** * Properties *)

(** ** Equality tests *)

Lemma str_eqb_eq (a b : str) : str_eqb a b = true <-> a = b.
Proof.
  revert b; induction a as [|x a IH]; intros [|y b]; simpl;
    try (split; [discriminate | congruence]); try tauto.
  rewrite andb_true_iff, Z.eqb_eq, IH.
  split; [intros [-> ->]; reflexivity | intros [= -> ->]; auto].
Qed.

Lemma str_eqb_refl (a : str) : str_eqb a a = true.
Proof. apply str_eqb_eq; reflexivity. Qed.

Lemma str_eqb_neq (a b : str) : str_eqb a b = false <-> a <> b.
Proof.
  rewrite <- str_eqb_eq. destruct (str_eqb a b); split; congruence.
Qed.

Lemma str_eqb_sym (a b : str) : str_eqb a b = str_eqb b a.
Proof.
  destruct (str_eqb a b) eqn:E.
  - apply str_eqb_eq in E; subst; symmetry; apply str_eqb_refl.
  - apply str_eqb_neq in E. symmetry. apply str_eqb_neq. congruence.
Qed.

Lemma byte_eqb_eq (a b : byte) : byte_eqb a b = true <-> a = b.
Proof.
  unfold byte_eqb. split; [apply Byte.byte_dec_bl | apply Byte.byte_dec_lb].
Qed.

Lemma bytes_eqb_eq (a b : bytes) : bytes_eqb a b = true <-> a = b.
Proof.
  revert b; induction a as [|x a IH]; intros [|y b]; simpl;
    try (split; [discriminate | congruence]); try tauto.
  rewrite andb_true_iff, byte_eqb_eq, IH.
  split; [intros [-> ->]; reflexivity | intros [= -> ->]; auto].
Qed.

(** ** The dictionary *)

Section DictFacts.
Context {V : Type}.
Implicit Types (d : dict V) (k : str) (v : V).

Lemma dict_get_None d k : dict_get d k = None <-> ~ In k (keys d).
Proof.
  induction d as [|[k' v'] d IH]; simpl.
  - tauto.
  - destruct (str_eqb k' k) eqn:E.
    + apply str_eqb_eq in E. split; [discriminate | intros HH; exfalso; auto].
    + apply str_eqb_neq in E. rewrite IH. tauto.
Qed.

Lemma dict_mem_In d k : dict_mem d k = true <-> In k (keys d).
Proof.
  unfold dict_mem. destruct (dict_get d k) eqn:E.
  - split; auto. intros _.
    destruct (in_dec (list_eq_dec Z.eq_dec) k (keys d)) as [i|n]; auto.
    apply dict_get_None in n. congruence.
  - apply dict_get_None in E. split; [discriminate | tauto].
Qed.

Lemma dict_get_set_same d k v : dict_get (dict_set d k v) k = Some v.
Proof.
  induction d as [|[k' v'] d IH]; simpl.
  - now rewrite str_eqb_refl.
  - destruct (str_eqb k' k) eqn:E; simpl; now rewrite E.
Qed.

Lemma dict_get_set_other d k k' v :
  k <> k' -> dict_get (dict_set d k v) k' = dict_get d k'.
Proof.
  intros N. induction d as [|[k0 v0] d IH]; simpl.
  - apply str_eqb_neq in N. now rewrite N.
  - destruct (str_eqb k0 k) eqn:E; simpl.
    + apply str_eqb_eq in E; subst k0.
      apply str_eqb_neq in N. now rewrite N.
    + now rewrite IH.
Qed.

Lemma keys_set d k v :
  keys (dict_set d k v) = if dict_mem d k then keys d else keys d ++ [k].
Proof.
  unfold dict_mem.
  induction d as [|[k0 v0] d IH]; simpl; auto.
  destruct (str_eqb k0 k) eqn:E; simpl; auto.
  rewrite IH. now destruct (dict_get d k).
Qed.

Lemma NoDup_keys_set d k v : NoDup (keys d) -> NoDup (keys (dict_set d k v)).
Proof.
  intros ND. rewrite keys_set. destruct (dict_mem d k) eqn:E; auto.
  assert (~ In k (keys d)) as NI.
  { rewrite <- dict_mem_In. congruence. }
  clear E. induction (keys d) as [|x l IH]; simpl.
  - constructor; [tauto | constructor].
  - inversion ND; subst. constructor.
    + rewrite in_app_iff; simpl. simpl in NI. intuition congruence.
    + apply IH; auto. simpl in NI. tauto.
Qed.

(** In a dictionary without repeated keys, the value at a place is the
    value of the key at that place. *)
Lemma values_by_key d n k :
  NoDup (keys d) ->
  nth_error (keys d) n = Some k ->
  nth_error (values d) n = dict_get d k.
Proof.
  revert n. induction d as [|[k0 v0] d IH]; intros [|n] ND E; simpl in *;
    try discriminate.
  - injection E as ->. now rewrite str_eqb_refl.
  - inversion ND; subst. destruct (str_eqb k0 k) eqn:E'.
    + apply str_eqb_eq in E'; subst. apply nth_error_In in E. tauto.
    + now apply IH.
Qed.
End DictFacts.

(** ** Building the index *)

Lemma filter_absorb {A} (f g : A -> bool) (l : list A) :
  (forall a, f a = true -> g a = true) ->
  filter f (filter g l) = filter f l.
Proof.
  intros Hfg. induction l as [|a l IH]; simpl; auto.
  destruct (g a) eqn:G; simpl; destruct (f a) eqn:F; try congruence.
  apply Hfg in F. congruence.
Qed.

Lemma filter_both {A} (f g : A -> bool) (l : list A) :
  filter (fun a => f a && g a) l = filter f (filter g l).
Proof.
  induction l as [|a l IH]; simpl; auto.
  destruct (g a); simpl; destruct (f a); simpl; congruence.
Qed.

Lemma unseen_In seen k : unseen seen k = false <-> In k seen.
Proof.
  unfold unseen. rewrite negb_false_iff, existsb_exists. split.
  - intros (x & Hin & E). apply str_eqb_eq in E. now subst.
  - intros Hin. exists k. split; auto. apply str_eqb_refl.
Qed.

Lemma get_store_all infos d k :
  dict_get (store_all infos d) k =
  match last_named infos k with
  | Some i => Some i
  | None => dict_get d k
  end.
Proof.
  unfold store_all, last_named.
  induction infos as [|x l IH] using rev_ind; simpl; auto.
  rewrite fold_left_app, rev_app_distr. simpl.
  destruct (str_eqb (filename x) k) eqn:E.
  - apply str_eqb_eq in E; subst. apply dict_get_set_same.
  - apply str_eqb_neq in E. rewrite dict_get_set_other; auto.
Qed.

Lemma keys_store_all infos d :
  keys (store_all infos d) =
  keys d ++ filter (unseen (keys d)) (first_occurrences (map filename infos)).
Proof.
  unfold store_all. revert d.
  induction infos as [|x t IH]; intros d; simpl.
  - now rewrite app_nil_r.
  - rewrite IH, keys_set. destruct (dict_mem d (filename x)) eqn:M.
    + assert (unseen (keys d) (filename x) = false) as ->.
      { apply unseen_In, dict_mem_In, M. }
      f_equal. symmetry. apply filter_absorb.
      intros a Ha. destruct (str_eqb (filename x) a) eqn:E; auto.
      apply str_eqb_eq in E; subst a.
      apply dict_mem_In, unseen_In in M. congruence.
    + assert (unseen (keys d) (filename x) = true) as ->.
      { destruct (unseen (keys d) (filename x)) eqn:U; auto.
        apply unseen_In, dict_mem_In in U. congruence. }
      rewrite <- app_assoc. simpl. do 2 f_equal.
      rewrite <- filter_both. apply filter_ext. intros a.
      unfold unseen. rewrite existsb_app. simpl.
      rewrite orb_false_r, negb_orb, (str_eqb_sym a). reflexivity.
Qed.

Lemma NoDup_keys_store_all infos d :
  NoDup (keys d) -> NoDup (keys (store_all infos d)).
Proof.
  unfold store_all. revert d. induction infos as [|x t IH]; intros d ND; simpl.
  - exact ND.
  - apply IH, NoDup_keys_set, ND.
Qed.

Lemma self_named_set d info :
  self_named d -> self_named (dict_set d (filename info) info).
Proof.
  unfold self_named. induction 1 as [|[k v] d Hkv Hd IH]; simpl.
  - constructor; auto.
  - destruct (str_eqb k (filename info)) eqn:E.
    + apply str_eqb_eq in E. constructor; auto.
    + constructor; auto.
Qed.

Lemma self_named_store_all infos d :
  self_named d -> self_named (store_all infos d).
Proof.
  unfold store_all. revert d. induction infos as [|x t IH]; intros d Hd; simpl.
  - exact Hd.
  - apply IH, self_named_set, Hd.
Qed.

Lemma self_named_values d : self_named d -> map filename (values d) = keys d.
Proof.
  unfold values, keys. induction 1 as [|[k v] d Hkv Hd IH]; simpl; auto.
  simpl in Hkv. congruence.
Qed.

Lemma dict_set_new {V} (d : dict V) k v :
  ~ In k (keys d) -> dict_set d k v = d ++ [(k, v)].
Proof.
  induction d as [|[k0 v0] d IH]; simpl; intros NI; auto.
  destruct (str_eqb k0 k) eqn:E.
  - apply str_eqb_eq in E. tauto.
  - rewrite IH; auto.
Qed.

Lemma store_all_distinct infos d :
  NoDup (keys d ++ map filename infos) ->
  store_all infos d = d ++ map (fun i => (filename i, i)) infos.
Proof.
  unfold store_all. revert d. induction infos as [|x t IH]; intros d ND; simpl.
  - now rewrite app_nil_r.
  - assert (~ In (filename x) (keys d)) as NI.
    { intros Hin. apply NoDup_remove_2 in ND. apply ND.
      apply in_or_app. auto. }
    rewrite dict_set_new by exact NI. rewrite IH.
    + now rewrite <- app_assoc.
    + unfold keys in *. rewrite map_app, <- app_assoc. exact ND.
Qed.

Section ParserFacts.
Context {RT : Runtime}.

(** The loop stores the [ZipInfo] of its turns one after the other, and
    raises what the first failing turn raises. *)
Lemma central_directory_headers m turns mmap_offset files :
  central_directory m turns mmap_offset files =
  ('(_, infos) <- headers m turns mmap_offset ;;
   Ok (store_all infos files)).
Proof.
  revert mmap_offset files.
  induction turns as [|n IH]; intros off files; simpl; auto.
  destruct (central_directory_header m off) as [[off' info]|e]; simpl; auto.
  rewrite IH. destruct (headers m n off') as [[o l]|]; reflexivity.
Qed.
End ParserFacts.

Lemma filter_unseen_nil (l : list str) : filter (unseen []) l = l.
Proof. induction l; simpl; congruence. Qed.

Section IndexOrder.
Context {RT : Runtime}.

(** What [__init__] leaves in [self.files] when it parses the directory
    itself: the [ZipInfo] of the turns of the loop, stored in turn. *)
Lemma init_files fs file mode self :
  __init__ fs file mode None = Ok self ->
  exists num_files directory_offset end_offset infos,
    end_of_central_directory (m self) = Ok (num_files, directory_offset) /\
    headers (m self) (Z.to_nat num_files) directory_offset
      = Ok (end_offset, infos) /\
    files self = store_all infos [].
Proof.
  unfold __init__. destruct (assert _); simpl; try discriminate.
  destruct (open_mmap fs file) as [m0|]; simpl; try discriminate.
  destruct (_read_eocd_mmap m0) as [d|] eqn:P; simpl; try discriminate.
  intros [= <-]. simpl.
  unfold _read_eocd_mmap in P.
  destruct (end_of_central_directory m0) as [[n off]|] eqn:E; simpl in P;
    try discriminate.
  rewrite central_directory_headers in P.
  destruct (headers m0 (Z.to_nat n) off) as [[off' infos]|] eqn:E';
    simpl in P; try discriminate.
  injection P as <-. now exists n, off, off', infos.
Qed.

(** C7.  When [ParallelZipFile] parses the central directory itself, no
    name is twice in the index, the entry of a name is the last directory
    header with that name, [namelist()] gives the names in the order in
    which the directory first has them, [infolist()] gives at each place
    the entry of the name at that place, so that [namelist()[i]] is
    [infolist()[i].filename]; and when the directory repeats no name,
    [namelist()] and [infolist()] are the directory's names and entries as
    scanned. *)
Theorem index_last_wins_in_insertion_order fs file mode self :
  __init__ fs file mode None = Ok self ->
  exists num_files directory_offset end_offset infos,
    end_of_central_directory (m self) = Ok (num_files, directory_offset) /\
    headers (m self) (Z.to_nat num_files) directory_offset
      = Ok (end_offset, infos) /\
    NoDup (namelist self) /\
    (forall k, dict_get (files self) k = last_named infos k) /\
    namelist self = first_occurrences (map filename infos) /\
    (forall i k, nth_error (namelist self) i = Some k ->
                 nth_error (infolist self) i = last_named infos k) /\
    (forall i, nth_error (namelist self) i =
               option_map filename (nth_error (infolist self) i)) /\
    (NoDup (map filename infos) ->
     namelist self = map filename infos /\ infolist self = infos).
Proof.
  intros Hinit.
  destruct (init_files _ _ _ _ Hinit)
    as (n & off & off' & infos & He & Hh & Hf).
  exists n, off, off', infos. unfold namelist, infolist. rewrite Hf.
  assert (NoDup (keys (store_all infos []))) as ND.
  { apply NoDup_keys_store_all. constructor. }
  assert (forall k, dict_get (store_all infos []) k = last_named infos k) as G.
  { intros k. rewrite get_store_all. now destruct (last_named infos k). }
  repeat split; auto.
  - rewrite keys_store_all. simpl. apply filter_unseen_nil.
  - intros i k Hk. rewrite <- G. now apply values_by_key.
  - intros i. rewrite <- nth_error_map. f_equal. symmetry.
    apply self_named_values, self_named_store_all. constructor.
  - rewrite store_all_distinct by (simpl; assumption). simpl.
    unfold keys. rewrite map_map. reflexivity.
  - rewrite store_all_distinct by (simpl; assumption). simpl.
    unfold values. rewrite map_map. simpl. apply map_id.
Qed.
End IndexOrder.

Lemma index_last_wins_in_insertion_order_witness :
  @__init__ codecs_only (disk archive_dup) (lit "example.zip") (lit "r") None
    = Ok zip_dup /\
  exists num_files directory_offset end_offset infos,
    @end_of_central_directory (m zip_dup) = Ok (num_files, directory_offset) /\
    @headers codecs_only (m zip_dup) (Z.to_nat num_files) directory_offset
      = Ok (end_offset, infos) /\
    NoDup (namelist zip_dup) /\
    (forall k, dict_get (files zip_dup) k = last_named infos k) /\
    namelist zip_dup = first_occurrences (map filename infos) /\
    (forall i k, nth_error (namelist zip_dup) i = Some k ->
                 nth_error (infolist zip_dup) i = last_named infos k) /\
    (forall i, nth_error (namelist zip_dup) i =
               option_map filename (nth_error (infolist zip_dup) i)) /\
    (NoDup (map filename infos) ->
     namelist zip_dup = map filename infos /\ infolist zip_dup = infos).
Proof.
  assert (@__init__ codecs_only (disk archive_dup) (lit "example.zip")
            (lit "r") None = Ok zip_dup) as E by (vm_compute; reflexivity).
  split; [exact E|].
  exact (@index_last_wins_in_insertion_order codecs_only _ _ _ _ E).
Defined.

(** ** Searching for a signature *)

Lemma starts_with_spec (sub s : bytes) :
  starts_with sub s = true <-> exists after, s = sub ++ after.
Proof.
  revert s. induction sub as [|x sub IH]; intros s; simpl.
  - split; eauto.
  - destruct s as [|y s].
    + split; [discriminate | intros [after E]; discriminate].
    + rewrite andb_true_iff, byte_eqb_eq, IH. split.
      * intros [-> [after ->]]. now exists after.
      * intros [after [= -> ->]]. eauto.
Qed.

Lemma occurs_cons (sub : bytes) (x : byte) (t : bytes) :
  occurs sub (x :: t) <-> starts_with sub (x :: t) = true \/ occurs sub t.
Proof.
  rewrite starts_with_spec. unfold occurs. split.
  - intros ([|b before] & after & E); simpl in E.
    + left. eauto.
    + right. injection E as -> ->. eauto.
  - intros [[after E] | (before & after & ->)].
    + exists [], after. exact E.
    + exists (x :: before), after. reflexivity.
Qed.

Lemma rfind_from_absent (sub s : bytes) (i : Z) :
  ~ occurs sub s -> rfind_from sub s i = -1.
Proof.
  revert i. induction s as [|x t IH]; intros i N; simpl.
  - destruct (starts_with sub []) eqn:E; auto.
    exfalso. apply N. apply starts_with_spec in E as [after E].
    exists [], after. exact E.
  - rewrite occurs_cons in N. rewrite IH by tauto. simpl.
    destruct (starts_with sub (x :: t)); tauto.
Qed.

Lemma rfind_from_present (sub s : bytes) (i : Z) :
  0 <= i -> occurs sub s -> 0 <= rfind_from sub s i.
Proof.
  revert i. induction s as [|x t IH]; intros i Hi O; simpl.
  - destruct O as (before & after & E).
    destruct before; [|discriminate]. simpl in E.
    destruct sub; [|discriminate]. simpl. exact Hi.
  - destruct (0 <=? rfind_from sub t (i + 1)) eqn:R.
    + now apply Z.leb_le.
    + apply occurs_cons in O as [-> | O]; auto.
      apply (IH (i + 1)) in O; [|lia]. apply Z.leb_gt in R. lia.
Qed.

(** [rfind] answers [-1] exactly when the signature is nowhere. *)
Lemma rfind_absent_iff (s sub : bytes) : rfind s sub = -1 <-> ~ occurs sub s.
Proof.
  unfold rfind. split.
  - intros E O. apply (rfind_from_present sub s 0) in O; lia.
  - apply rfind_from_absent.
Qed.

(** ** Slices *)

Lemma len_nonneg {A} (s : list A) : 0 <= len s.
Proof. unfold len. lia. Qed.

(** [s[-k:]] is the last [k] elements of [s], or all of [s] when it is
    shorter. *)
Lemma slice_last {A} (s : list A) (k : Z) :
  0 < k -> slice s (Some (- k)) None = skipn (length s - Z.to_nat k) s.
Proof.
  intros Hk. unfold slice, adjust_index.
  destruct (- k <? 0) eqn:E; [|apply Z.ltb_ge in E; lia].
  unfold len.
  replace (Z.to_nat (Z.max 0 (- k + Z.of_nat (length s))))
    with (length s - Z.to_nat k)%nat by lia.
  apply firstn_all2. rewrite length_skipn. lia.
Qed.

(** The length of [s[a:b]] for bounds that are not negative. *)
Lemma len_slice {A} (s : list A) (a b : Z) :
  0 <= a -> 0 <= b ->
  len (slice s (Some a) (Some b)) = Z.max 0 (Z.min b (len s) - Z.min a (len s)).
Proof.
  intros Ha Hb. unfold slice, adjust_index.
  destruct (a <? 0) eqn:Ea; [apply Z.ltb_lt in Ea; lia|].
  destruct (b <? 0) eqn:Eb; [apply Z.ltb_lt in Eb; lia|].
  unfold len. rewrite length_firstn, length_skipn. lia.
Qed.

Section NoSignature.
Context {RT : Runtime}.

(** C5.  When the last [max_eocd_size] = 22 + 65536 bytes of an open map
    (all of it when it is shorter) hold the signature "PK\5\6" nowhere, [_read_eocd_mmap]
    raises at [assert offset32 >= 0] and returns no index. *)
Theorem no_eocd_signature_raises (m : mmap) :
  closed m = false ->
  ~ occurs PK56
      (skipn (length (data m) - Z.to_nat max_eocd_size) (data m)) ->
  _read_eocd_mmap m = Raise AssertionError.
Proof.
  intros Hopen Habsent.
  unfold _read_eocd_mmap, end_of_central_directory, mmap_slice.
  rewrite Hopen. cbn [bind].
  rewrite slice_last by (unfold max_eocd_size; lia).
  apply rfind_absent_iff in Habsent. rewrite Habsent. reflexivity.
Qed.
End NoSignature.

Lemma no_eocd_signature_raises_witness :
  @_read_eocd_mmap codecs_only (opened not_a_zip) = Raise AssertionError.
Proof.
  apply (@no_eocd_signature_raises codecs_only (opened not_a_zip)).
  - reflexivity.
  - apply rfind_absent_iff. vm_compute. reflexivity.
Defined.

(** ** Reading an entry *)

Lemma unpack_length fs buf vs : unpack fs buf = Ok vs -> length buf = calcsize fs.
Proof.
  unfold unpack. destruct (Nat.eqb (length buf) (calcsize fs)) eqn:E.
  - intros _. now apply Nat.eqb_eq.
  - discriminate.
Qed.

Lemma lit_inj (a b : string) : lit a = lit b -> a = b.
Proof.
  revert b. induction a as [|c a IH]; intros [|c' b]; simpl; try discriminate.
  - reflexivity.
  - intros [= E1 E2]. apply N2Z.inj in E1. f_equal; auto.
    rewrite <- (ascii_N_embedding c), <- (ascii_N_embedding c'). now f_equal.
Qed.

Lemma to_int_not_nil (n : Z) :
  Z.to_int n <> Decimal.Pos Decimal.Nil /\ Z.to_int n <> Decimal.Neg Decimal.Nil.
Proof.
  pose proof (DecimalZ.to_of (Z.to_int n)) as E.
  rewrite DecimalZ.of_to in E.
  split; intros N; rewrite N in E; discriminate.
Qed.

(** The decimal form of an [int] tells the [int]. *)
Lemma str_of_int_inj (a b : Z) : str_of_int a = str_of_int b -> a = b.
Proof.
  unfold str_of_int. intros E. apply lit_inj in E.
  apply (f_equal NilZero.int_of_string) in E.
  destruct (to_int_not_nil a), (to_int_not_nil b).
  rewrite !NilZero.isi in E by assumption.
  injection E as E. now apply DecimalZ.to_int_inj.
Qed.

Section Reading.
Context {RT : Runtime}.

(** [read] once the name is in the index, the map is open and the local
    header has its 30 bytes. *)
Lemma read_entry self name fileinfo
    signature compression compressed_size filename_length extra_length :
  dict_get (files self) name = Some fileinfo ->
  closed (m self) = false ->
  local_header_at (data (m self)) (header_offset fileinfo)
    signature compression compressed_size filename_length extra_length ->
  let start := header_offset fileinfo + 30 + filename_length + extra_length in
  read self name =
  (assert (signature =? 0x4034B50) ;;;
   decompress compression
     (slice (data (m self)) (Some start)
            (Some (start + compress_size fileinfo)))).
Proof.
  intros Hget Hopen (version & unused & time & date & crc & usize & Hhdr) start.
  unfold read, mmap_slice. rewrite Hget, Hopen. cbn [bind].
  pose proof (unpack_length _ _ _ Hhdr) as Hlen.
  assert ((len (slice (data (m self)) (Some (header_offset fileinfo))
                      (Some (header_offset fileinfo + 30))) <? 30) = false)
    as ->.
  { unfold len. rewrite Hlen. reflexivity. }
  rewrite Hhdr. cbn [bind].
  replace (header_offset fileinfo + (30 + filename_length + extra_length))
    with start by (unfold start; lia).
  destruct (compressed_size =? compress_size fileinfo) eqn:E; simpl; auto.
  apply Z.eqb_eq in E. now rewrite E.
Qed.

Lemma run_app self cs cs' :
  run self (cs ++ cs') = run self cs ++ run (after self cs) cs'.
Proof.
  revert self. induction cs as [|c cs IH]; intros self; auto.
  change (after self (c :: cs)) with (after (snd (step self c)) cs).
  cbn [run app]. destruct (step self c) as [r self']. cbn [snd].
  now rewrite IH.
Qed.

(** Only [close] changes the object. *)
Lemma after_no_close self cs :
  Forall (fun c => c <> call_close) cs -> after self cs = self.
Proof.
  unfold after. induction 1 as [|c cs Hc _ IH]; simpl; auto.
  destruct c; simpl; auto. congruence.
Qed.

(** C2.  With the name in the index and a local header of 30 bytes, the
    bytes that [read] hands to the decompression branches are the slice of
    the map that starts at [header_offset + 30 + filename_length +
    extra_length] and stops [compress_size] bytes later, where
    [compress_size] is the central directory's value in the index: the
    local header's own compressed size has no part in it.  When the slice
    lies within the map its length is that [compress_size]. *)
Theorem central_compress_size_is_authoritative self name fileinfo
    signature compression compressed_size filename_length extra_length :
  dict_get (files self) name = Some fileinfo ->
  closed (m self) = false ->
  local_header_at (data (m self)) (header_offset fileinfo)
    signature compression compressed_size filename_length extra_length ->
  let start := header_offset fileinfo + 30 + filename_length + extra_length in
  let compressed :=
    slice (data (m self)) (Some start) (Some (start + compress_size fileinfo)) in
  read self name =
    (assert (signature =? 0x4034B50) ;;; decompress compression compressed) /\
  (0 <= start -> 0 <= compress_size fileinfo ->
   start + compress_size fileinfo <= len (data (m self)) ->
   len compressed = compress_size fileinfo).
Proof.
  intros Hget Hopen Hhdr start compressed. split.
  - now apply read_entry with (compressed_size := compressed_size).
  - intros Hs Hc Hfit. unfold compressed. rewrite len_slice by lia. lia.
Qed.

(** C3.  With the name in the index and a local header that has its 30
    bytes and the signature 0x04034B50, a compression method other than 0,
    8 and 14 makes [read] raise [NotImplementedError] with a message that
    holds the method and tells it apart from every other method; the call
    leaves the object, and so its index, as it was, and the calls that
    follow answer as they would without it. *)
Theorem unsupported_method_raises self name fileinfo
    compression compressed_size filename_length extra_length :
  dict_get (files self) name = Some fileinfo ->
  closed (m self) = false ->
  local_header_at (data (m self)) (header_offset fileinfo)
    0x4034B50 compression compressed_size filename_length extra_length ->
  compression <> 0 -> compression <> 8 -> compression <> 14 ->
  let message c :=
    lit "Compression method " ++ str_of_int c ++ lit " not implemented" in
  read self name = Raise (NotImplementedError (message compression)) /\
  (forall c, message c = message compression -> c = compression) /\
  snd (step self (call_read name)) = self /\
  (forall cs, run self (call_read name :: cs) =
              reply_read (Raise (NotImplementedError (message compression)))
              :: run self cs).
Proof.
  intros Hget Hopen Hhdr H0 H8 H14 message.
  assert (read self name = Raise (NotImplementedError (message compression)))
    as Hread.
  { rewrite (read_entry _ _ _ _ _ _ _ _ Hget Hopen Hhdr).
    cbn [assert bind Z.eqb Pos.eqb]. unfold decompress.
    apply Z.eqb_neq in H0, H8, H14. now rewrite H0, H8, H14. }
  repeat split; auto.
  - intros c E. unfold message in E.
    apply app_inv_head, app_inv_tail in E. now apply str_of_int_inj.
  - intros cs. simpl. now rewrite Hread.
Qed.

(** C6.  For a name that is not in the index [read] raises the
    [ValueError] "... does not exist" whatever the map is: open or closed,
    and whatever its bytes. *)
Theorem read_missing_name self name :
  ~ In name (namelist self) ->
  read self name = Raise (ValueError (name ++ lit " does not exist")).
Proof.
  intros Habsent. apply dict_get_None in Habsent.
  unfold read. now rewrite Habsent.
Qed.

(** For a name that is in the index, [read] on a closed map raises what
    the map raises: the map is the first thing [read] touches after the
    index. *)
Lemma read_closed self name fileinfo :
  dict_get (files self) name = Some fileinfo ->
  closed (m self) = true ->
  read self name = Raise (ValueError (lit "mmap closed or invalid")).
Proof.
  intros Hget Hclosed. unfold read, mmap_slice. now rewrite Hget, Hclosed.
Qed.

(** C8.  Two [read]s of a name on one object give the same result, with
    any calls but [close] between them; and [read_files] gives the same
    index for a path in two file systems that hold the same bytes under
    that path. *)
Theorem read_and_read_files_repeat self name cs (fs fs' : filesystem) path :
  Forall (fun c => c <> call_close) cs ->
  fs path = fs' path ->
  run self (call_read name :: cs ++ [call_read name]) =
    reply_read (read self name) :: run self cs ++ [reply_read (read self name)]
  /\ read_files fs path = read_files fs' path.
Proof.
  intros Hcs Hsame. split.
  - simpl. f_equal. rewrite run_app, after_no_close by assumption.
    reflexivity.
  - unfold read_files, open_mmap. now rewrite Hsame.
Qed.

(** C10.  With the name in the index and a local header that has its 30
    bytes and the signature 0x04034B50, the bytes that [read] takes as the
    entry's data are those of the map from the start of the data up to
    [compress_size] bytes later or to the end of the map, whichever comes
    first: taking them raises nothing, [read] is what the branch of the
    compression method makes of them, and for a stored entry [read] returns
    them, fewer than [compress_size] when the map ends before the window
    does. *)
Theorem stored_window_is_truncated self name fileinfo
    compression compressed_size filename_length extra_length :
  dict_get (files self) name = Some fileinfo ->
  closed (m self) = false ->
  local_header_at (data (m self)) (header_offset fileinfo)
    0x4034B50 compression compressed_size filename_length extra_length ->
  let start := header_offset fileinfo + 30 + filename_length + extra_length in
  0 <= start -> 0 <= compress_size fileinfo ->
  exists content,
    content = slice (data (m self)) (Some start)
                    (Some (start + compress_size fileinfo)) /\
    len content =
      Z.max 0 (Z.min (compress_size fileinfo) (len (data (m self)) - start)) /\
    read self name = decompress compression content /\
    (compression = 0 -> read self name = Ok content) /\
    (len (data (m self)) < start + compress_size fileinfo ->
     0 < compress_size fileinfo ->
     len content < compress_size fileinfo).
Proof.
  intros Hget Hopen Hhdr start Hs Hc.
  eexists. split; [reflexivity|].
  assert (read self name =
          decompress compression
            (slice (data (m self)) (Some start)
                   (Some (start + compress_size fileinfo)))) as Hread.
  { rewrite (read_entry _ _ _ _ _ _ _ _ Hget Hopen Hhdr). reflexivity. }
  fold start. rewrite len_slice by lia.
  pose proof (len_nonneg (data (m self))).
  repeat split; try lia; auto.
  intros ->. exact Hread.
Qed.
End Reading.

(** The local header of "a.txt" in [archive_two] says that the compressed
    size is 0; the index says 2, and [read] returns the two bytes. *)
Lemma central_compress_size_is_authoritative_witness :
  @read codecs_only zip_two (lit "a.txt") =
    (assert (0x4034B50 =? 0x4034B50) ;;;
     @decompress codecs_only 0 (slice archive_two (Some 35) (Some (35 + 2)))) /\
  (0 <= 35 -> 0 <= 2 -> 35 + 2 <= len archive_two ->
   len (slice archive_two (Some 35) (Some (35 + 2))) = 2).
Proof.
  refine (@central_compress_size_is_authoritative codecs_only zip_two
            (lit "a.txt") info_a_txt 0x4034B50 0 0 5 0 _ _ _).
  - reflexivity.
  - reflexivity.
  - exists 20, 0, 0, 0, 0x11, 2. vm_compute. reflexivity.
Defined.

Lemma read_a_txt : @read codecs_only zip_two (lit "a.txt") = Ok (ascii_bytes "hi").
Proof. vm_compute. reflexivity. Qed.

Lemma unsupported_method_raises_witness :
  let message c :=
    lit "Compression method " ++ str_of_int c ++ lit " not implemented" in
  @read codecs_only zip_two (lit "z.bin")
    = Raise (NotImplementedError (message 99)) /\
  (forall c, message c = message 99 -> c = 99) /\
  snd (@step codecs_only zip_two (call_read (lit "z.bin"))) = zip_two /\
  (forall cs, @run codecs_only zip_two (call_read (lit "z.bin") :: cs) =
              reply_read (Raise (NotImplementedError (message 99)))
              :: @run codecs_only zip_two cs).
Proof.
  refine (@unsupported_method_raises codecs_only zip_two
            (lit "z.bin") info_z_bin 99 2 5 0 _ _ _ _ _ _).
  - reflexivity.
  - reflexivity.
  - exists 20, 0, 0, 0, 0x22, 2. vm_compute. reflexivity.
  - discriminate.
  - discriminate.
  - discriminate.
Defined.

(** After the read of "z.bin" has raised, "a.txt" reads as before. *)
Lemma read_after_unsupported :
  @run codecs_only zip_two [call_read (lit "z.bin"); call_read (lit "a.txt")]
  = [reply_read (Raise (NotImplementedError
                          (lit "Compression method 99 not implemented")));
     reply_read (Ok (ascii_bytes "hi"))].
Proof. vm_compute. reflexivity. Qed.

Lemma read_missing_name_witness :
  @read codecs_only (@close zip_two) (lit "nope")
  = Raise (ValueError (lit "nope" ++ lit " does not exist")).
Proof.
  apply (@read_missing_name codecs_only (@close zip_two) (lit "nope")).
  simpl. intros [E | [E | []]]; discriminate E.
Defined.

Lemma read_and_read_files_repeat_witness :
  @run codecs_only zip_two
     (call_read (lit "a.txt")
      :: [call_namelist; call_read (lit "z.bin")] ++ [call_read (lit "a.txt")])
  = reply_read (@read codecs_only zip_two (lit "a.txt"))
    :: @run codecs_only zip_two [call_namelist; call_read (lit "z.bin")]
    ++ [reply_read (@read codecs_only zip_two (lit "a.txt"))]
  /\ @read_files codecs_only (disk archive_two) (lit "example.zip")
     = @read_files codecs_only one_file (lit "example.zip").
Proof.
  apply (@read_and_read_files_repeat codecs_only zip_two (lit "a.txt")
           [call_namelist; call_read (lit "z.bin")]
           (disk archive_two) one_file (lit "example.zip")).
  - repeat constructor; discriminate.
  - reflexivity.
Defined.

(** [close] between two reads changes the second. *)
Lemma read_after_close :
  @run codecs_only zip_two
     [call_read (lit "a.txt"); call_close; call_read (lit "a.txt")]
  = [reply_read (Ok (ascii_bytes "hi")); reply_close;
     reply_read (Raise (ValueError (lit "mmap closed or invalid")))].
Proof. vm_compute. reflexivity. Qed.

(** "a.txt" of [archive_short] is recorded with 1000 bytes; the archive has
    75 bytes after the local header, and [read] returns those. *)
Lemma stored_window_is_truncated_witness :
  exists content,
    content = slice archive_short (Some 35) (Some (35 + 1000)) /\
    len content = Z.max 0 (Z.min 1000 (len archive_short - 35)) /\
    @read codecs_only zip_short (lit "a.txt") = @decompress codecs_only 0 content /\
    (0 = 0 -> @read codecs_only zip_short (lit "a.txt") = Ok content) /\
    (len archive_short < 35 + 1000 -> 0 < 1000 -> len content < 1000).
Proof.
  refine (@stored_window_is_truncated codecs_only zip_short
            (lit "a.txt") info_short 0 1000 5 0 _ _ _ _ _).
  - reflexivity.
  - reflexivity.
  - exists 20, 0, 0, 0, 0x11, 1000. vm_compute. reflexivity.
  - vm_compute. discriminate.
  - vm_compute. discriminate.
Defined.

Lemma read_short :
  exists content,
    @read codecs_only zip_short (lit "a.txt") = Ok content /\
    len content = 75 /\ compress_size info_short = 1000.
Proof. eexists. repeat split. Qed.

(** ** File names *)

Lemma is_nul_eq (b : byte) : is_nul b = true <-> b = x00.
Proof. apply byte_eqb_eq. Qed.

(** [rstrip_nul] removes NUL bytes from the end and nothing else. *)
Lemma rstrip_nul_tail (s : bytes) :
  exists k, s = rstrip_nul s ++ repeat x00 k.
Proof.
  induction s as [|b t [k IH]]; simpl.
  - now exists 0%nat.
  - destruct (rstrip_nul t) as [|y t'] eqn:E.
    + simpl in IH. destruct (is_nul b) eqn:Z.
      * apply is_nul_eq in Z. subst b. exists (S k). simpl. now f_equal.
      * exists k. simpl. now f_equal.
    + exists k. simpl. f_equal. exact IH.
Qed.

(** What [rstrip_nul] leaves does not end with a NUL byte. *)
Lemma rstrip_nul_end (s : bytes) (before : bytes) :
  rstrip_nul s <> before ++ [x00].
Proof.
  revert before. induction s as [|b t IH]; intros before; simpl.
  - apply app_cons_not_nil.
  - destruct (rstrip_nul t) as [|y t'] eqn:E.
    + destruct (is_nul b) eqn:Z.
      * apply app_cons_not_nil.
      * destruct before as [|p before]; simpl.
        -- intros [= ->]. discriminate Z.
        -- intros [= -> E']. now apply app_cons_not_nil in E'.
    + destruct before as [|p before]; simpl.
      * intros E'. discriminate E'.
      * intros [= -> E']. now apply IH in E'.
Qed.

Section FileNames.
Context {RT : Runtime}.

(** A turn of the loop on a header that has its 46 bytes and its
    signature. *)
Lemma central_directory_header_eq m off crc cs us fl xl cl ho :
  closed m = false ->
  central_header_at (data m) off crc cs us fl xl cl ho ->
  central_directory_header m off =
  (filename <- decode_filename
                 (slice (data m) (Some (off + 46)) (Some (off + 46 + fl))) ;;
   '(u, c, o) <- zip64_extra
                   (slice (data m) (Some (off + 46 + fl))
                                   (Some (off + 46 + fl + xl))) us cs ho ;;
   Ok (off + 46 + fl + (xl + cl),
       {| filename := filename; header_offset := o; CRC := crc;
          compress_size := c; file_size := u |})).
Proof.
  intros Hopen (v & mv & u0 & co & ti & da & u1 & a0 & a1 & Hhdr).
  unfold central_directory_header, mmap_slice.
  rewrite Hopen. cbn [bind]. rewrite Hhdr. cbn [bind].
  change (bytes_eqb PK12 PK12) with true. cbn [assert bind].
  reflexivity.
Qed.

(** The first turn that raises makes the loop raise the same. *)
Lemma headers_raise m k turns off off_k infos e :
  headers m k off = Ok (off_k, infos) ->
  (k < turns)%nat ->
  central_directory_header m off_k = Raise e ->
  headers m turns off = Raise e.
Proof.
  revert turns off infos.
  induction k as [|k IH]; intros turns off infos Hk Hlt He.
  - injection Hk as <- <-. destruct turns; [lia|]. simpl. now rewrite He.
  - destruct turns as [|turns]; [lia|]. simpl in Hk |- *.
    destruct (central_directory_header m off) as [[o1 i1]|]; simpl in *;
      try discriminate.
    destruct (headers m k o1) as [[o2 l]|] eqn:Hk'; simpl in *;
      try discriminate.
    injection Hk as <- <-.
    rewrite (IH turns o1 l); auto. lia.
Qed.

Lemma read_eocd_raise m num_files directory_offset e :
  end_of_central_directory m = Ok (num_files, directory_offset) ->
  headers m (Z.to_nat num_files) directory_offset = Raise e ->
  _read_eocd_mmap m = Raise e.
Proof.
  intros He Hh. unfold _read_eocd_mmap. rewrite He. cbn [bind].
  rewrite central_directory_headers, Hh. reflexivity.
Qed.

(** [decode_filename] by the attempts in their order. *)
Lemma decode_filename_tries filename_bytes :
  decode_filename filename_bytes =
  match find is_some
             (map (fun e => decode e (rstrip_nul filename_bytes))
                  [utf_8; windows_1252; CP437]) with
  | Some (Some name) => Ok name
  | _ => Raise (ValueError
                  (lit "Could not decode filename " ++
                   bytes_repr filename_bytes))
  end.
Proof.
  unfold decode_filename. cbn [decode_filename_in map find].
  destruct (decode utf_8 _); cbn [is_some]; auto.
  destruct (decode windows_1252 _); cbn [is_some]; auto.
  destruct (decode CP437 _); cbn [is_some]; auto.
Qed.

(** C4.  At a turn of the loop over the central directory, on a header
    that has its 46 bytes and its signature, the name bytes without their
    trailing NUL bytes are decoded as UTF-8, as Windows-1252 and as CP437
    in this order.  The first attempt that succeeds gives the file name of
    the turn's [ZipInfo]; when none succeeds [_read_eocd_mmap] raises the
    [ValueError] "Could not decode filename ..." and returns no index. *)
Theorem filename_encodings_in_order
    m num_files directory_offset k off_k infos crc cs us fl xl cl ho :
  closed m = false ->
  end_of_central_directory m = Ok (num_files, directory_offset) ->
  (k < Z.to_nat num_files)%nat ->
  headers m k directory_offset = Ok (off_k, infos) ->
  central_header_at (data m) off_k crc cs us fl xl cl ho ->
  let filename_bytes :=
    slice (data m) (Some (off_k + 46)) (Some (off_k + 46 + fl)) in
  let extra :=
    slice (data m) (Some (off_k + 46 + fl)) (Some (off_k + 46 + fl + xl)) in
  let tries :=
    map (fun e => decode e (rstrip_nul filename_bytes))
        [utf_8; windows_1252; CP437] in
  match find is_some tries with
  | Some (Some name) =>
      decode_filename filename_bytes = Ok name /\
      central_directory_header m off_k =
      ('(u, c, o) <- zip64_extra extra us cs ho ;;
       Ok (off_k + 46 + fl + (xl + cl),
           {| filename := name; header_offset := o; CRC := crc;
              compress_size := c; file_size := u |}))
  | _ =>
      _read_eocd_mmap m =
      Raise (ValueError
               (lit "Could not decode filename " ++ bytes_repr filename_bytes))
  end.
Proof.
  intros Hopen Heocd Hlt Hk Hhdr filename_bytes extra tries.
  pose proof (central_directory_header_eq _ _ _ _ _ _ _ _ _ Hopen Hhdr) as Hturn.
  fold filename_bytes extra in Hturn.
  pose proof (decode_filename_tries filename_bytes) as Hdec.
  fold tries in Hdec.
  assert (forall msg, decode_filename filename_bytes = Raise (ValueError msg) ->
                      _read_eocd_mmap m = Raise (ValueError msg)) as Hfail.
  { intros msg E. apply (read_eocd_raise _ _ _ _ Heocd).
    apply (headers_raise _ _ _ _ _ _ _ Hk Hlt).
    rewrite Hturn, E. reflexivity. }
  destruct (find is_some tries) as [[name|]|]; auto.
  split; auto. rewrite Hturn, Hdec. reflexivity.
Qed.

End FileNames.

(** The name 0xE9 of [archive_latin] is not UTF-8; Windows-1252 decodes it,
    and CP437, which would give another character, is not tried. *)
Lemma filename_encodings_in_order_witness :
  @decode_filename codecs_only [xe9] = Ok [0xE9] /\
  @central_directory_header codecs_only (opened archive_latin) 0 =
  ('(u, c, o) <- zip64_extra [] 1 1 100 ;;
   Ok (47, {| filename := [0xE9]; header_offset := o; CRC := 0x11;
              compress_size := c; file_size := u |})).
Proof.
  refine (@filename_encodings_in_order codecs_only (opened archive_latin)
            1 0 0%nat 0 [] 0x11 1 1 1 0 0 100 _ _ _ _ _).
  - reflexivity.
  - vm_compute. reflexivity.
  - vm_compute. constructor.
  - reflexivity.
  - exists 20, 20, 0, 0, 0, 0, 0, 0, 0. vm_compute. reflexivity.
Defined.

Lemma latin_attempts :
  map (fun e => codecs_decode e [xe9]) [utf_8; windows_1252; CP437]
  = [None; Some [0xE9]; Some [0x398]].
Proof. reflexivity. Qed.

(** CPython's cp437 decodes every byte: with these codecs the third attempt
    always succeeds and the [else] branch of the loop is never taken. *)
Lemma cp437_total (s : bytes) : charmap_decode cp437_char s <> None.
Proof.
  induction s as [|b t IH]; simpl; [discriminate|].
  unfold cp437_char at 1. destruct (0x80 <=? byte_val b);
    destruct (charmap_decode cp437_char t); congruence.
Qed.

Lemma codecs_only_always_decode (filename_bytes : bytes) :
  exists name, @decode_filename codecs_only filename_bytes = Ok name.
Proof.
  unfold decode_filename. cbn [decode_filename_in decode codecs_only codecs_decode].
  destruct (utf8_decode _); eauto.
  destruct (charmap_decode cp1252_char _); eauto.
  pose proof (cp437_total (rstrip_nul filename_bytes)).
  destruct (charmap_decode cp437_char _); eauto. congruence.
Qed.

Lemma index_of_archive_nul :
  @_read_eocd_mmap codecs_only (opened archive_nul) = Ok [(lit "a", info_nul)] /\
  codecs_decode utf_8 [x61; x00; x00] = Some [97; 0; 0].
Proof. split; vm_compute; reflexivity. Qed.

(** ** The zip64 extra field *)

Lemma slice_from {A} (s : list A) (a : Z) :
  0 <= a -> slice s (Some a) None = skipn (Z.to_nat a) s.
Proof.
  intros Ha. unfold slice, adjust_index, len.
  destruct (a <? 0) eqn:E; [apply Z.ltb_lt in E; lia|].
  destruct (Z.le_gt_cases a (Z.of_nat (length s))) as [Hle|Hgt].
  - rewrite Z.min_l by lia. apply firstn_all2. rewrite length_skipn. lia.
  - rewrite Z.min_r by lia. rewrite Z.sub_diag. simpl.
    symmetry. apply skipn_all2. lia.
Qed.

Lemma slice_to {A} (s : list A) (b : Z) :
  0 <= b -> slice s None (Some b) = firstn (Z.to_nat b) s.
Proof.
  intros Hb. unfold slice, adjust_index, len.
  destruct (b <? 0) eqn:E; [apply Z.ltb_lt in E; lia|].
  rewrite Z.sub_0_r. simpl.
  destruct (Z.le_gt_cases b (Z.of_nat (length s))) as [Hle|Hgt].
  - now rewrite Z.min_l by lia.
  - rewrite Z.min_r by lia. rewrite Nat2Z.id.
    rewrite firstn_all. symmetry. apply firstn_all2. lia.
Qed.

Lemma unpack1_Q (x : bytes) : length x = 8%nat -> unpack1 Q x = Ok (le_int x).
Proof.
  intros Hx. unfold unpack1, unpack. rewrite Hx.
  cbn [calcsize fmt_size Nat.add Nat.eqb bind unpack_fields].
  rewrite firstn_all2 by lia. reflexivity.
Qed.

(** The branch of a size: the next 8 bytes, which are then dropped. *)
Lemma take_front (rest : bytes) :
  (8 <= length rest)%nat ->
  (assert (8 <=? len rest) ;;;
   v <- unpack1 Q (slice rest None (Some 8)) ;;
   Ok (v, slice rest (Some 8) None))
  = Ok (le_int (firstn 8 rest), skipn 8 rest).
Proof.
  intros Hlen.
  assert ((8 <=? len rest) = true) as -> by (apply Z.leb_le; unfold len; lia).
  cbn [assert bind]. rewrite slice_to, slice_from by lia.
  change (Z.to_nat 8) with 8%nat.
  rewrite unpack1_Q by (rewrite length_firstn; lia). reflexivity.
Qed.

(** The branch of the offset: the last 8 bytes, and the first 8 bytes are
    then dropped. *)
Lemma take_back (rest : bytes) :
  (8 <= length rest)%nat ->
  (assert (8 <=? len rest) ;;;
   v <- unpack1 Q (slice rest (Some (-8)) None) ;;
   Ok (v, slice rest (Some 8) None))
  = Ok (le_int (skipn (length rest - 8) rest), skipn 8 rest).
Proof.
  intros Hlen.
  assert ((8 <=? len rest) = true) as -> by (apply Z.leb_le; unfold len; lia).
  cbn [assert bind]. change (-8) with (- (8)).
  rewrite slice_last, slice_from by lia.
  change (Z.to_nat 8) with 8%nat.
  rewrite unpack1_Q by (rewrite length_skipn; lia). reflexivity.
Qed.

Lemma take_short {A B} (rest : bytes) (k : result A) (k' : A -> result B) :
  (length rest < 8)%nat ->
  (x <- (assert (8 <=? len rest) ;;; k) ;; k' x) = Raise AssertionError.
Proof.
  intros Hlen.
  assert ((8 <=? len rest) = false) as -> by (apply Z.leb_gt; unfold len; lia).
  reflexivity.
Qed.

(** What [zip64_extra] returns when the extra field, after its first 4
    bytes, has 8 bytes for each sentinel: a field that is not the sentinel
    is returned as it is; a sentinel size is the next 8 bytes, the
    uncompressed size first; a sentinel offset is the last 8 bytes of the
    extra field. *)
Lemma zip64_extra_ok (extra : bytes) (u c o : Z) :
  let rest := skipn 4 extra in
  (zip64_width u + zip64_width c + zip64_width o <= length rest)%nat ->
  zip64_extra extra u c o =
  Ok (if u =? 0xFFFFFFFF then le_int (firstn 8 rest) else u,
      if c =? 0xFFFFFFFF
      then le_int (firstn 8 (skipn (zip64_width u) rest)) else c,
      if o =? 0xFFFFFFFF
      then le_int (skipn (length extra - 8) extra) else o).
Proof.
  intros rest. unfold zip64_extra, zip64_width. cbv zeta.
  rewrite slice_from by lia. change (Z.to_nat 4) with 4%nat. fold rest.
  assert (length rest = (length extra - 4)%nat) as Hrest
    by (unfold rest; apply length_skipn).
  destruct (u =? 0xFFFFFFFF); destruct (c =? 0xFFFFFFFF);
    destruct (o =? 0xFFFFFFFF); intros Hlen;
    repeat first
      [ rewrite take_front by (rewrite ?length_skipn; lia)
      | rewrite take_back by (rewrite ?length_skipn; lia)
      | progress cbn [bind] ];
    try reflexivity;
    do 3 f_equal; unfold rest; rewrite ?skipn_skipn, ?length_skipn;
    f_equal; lia.
Qed.

(** With fewer bytes than that, [zip64_extra] raises at an [assert]. *)
Lemma zip64_extra_short (extra : bytes) (u c o : Z) :
  (length (skipn 4 extra) < zip64_width u + zip64_width c + zip64_width o)%nat ->
  zip64_extra extra u c o = Raise AssertionError.
Proof.
  unfold zip64_extra, zip64_width. cbv zeta.
  rewrite slice_from by lia. change (Z.to_nat 4) with 4%nat.
  set (rest := skipn 4 extra).
  destruct (u =? 0xFFFFFFFF); destruct (c =? 0xFFFFFFFF);
    destruct (o =? 0xFFFFFFFF); intros Hlen; try (simpl in Hlen; lia);
    repeat
      (cbn [bind];
       match goal with
       | |- context [assert (8 <=? len ?r)] =>
           destruct (Nat.lt_ge_cases (length r) 8);
           [ rewrite take_short by assumption; reflexivity
           | first [ rewrite take_front by assumption
                   | rewrite take_back by assumption ] ]
       end);
    exfalso; rewrite ?length_skipn in *; lia.
Qed.

(** C1.  In [archive_zip64_offset] the 32-bit offset of the entry is the
    sentinel and its extra field holds, after the 4 bytes of the zip64
    block's header, the 8 bytes of the offset 5 and then 9 bytes of a second
    block.  The next 8 bytes decode to 5; [zip64_extra], and with it
    [_read_eocd_mmap], take the last 8 bytes of the extra field instead and
    give the entry the offset 0x0504030201000554. *)
Theorem zip64_offset_read_from_the_end :
  unpack1 Q (slice (slice extra_zip64_then_ut (Some 4) None) None (Some 8))
    = Ok 5 /\
  zip64_extra extra_zip64_then_ut 1 1 0xFFFFFFFF
    = Ok (1, 1, 0x0504030201000554) /\
  @_read_eocd_mmap codecs_only (opened archive_zip64_offset)
    = Ok [(lit "a", info_zip64_offset)].
Proof. repeat split; vm_compute; reflexivity. Qed.

(** * Further properties of the module *)

(** ** [ZipInfo.is_dir] *)

Lemma endswith_spec (s suffix : str) :
  endswith s suffix = true <-> exists before, s = before ++ suffix.
Proof.
  induction s as [|x t IH]; cbn [endswith].
  - rewrite orb_false_r, str_eqb_eq. split.
    + intros <-. now exists [].
    + intros [before E]. symmetry in E. now apply app_eq_nil in E.
  - rewrite orb_true_iff, str_eqb_eq, IH. split.
    + intros [<- | [before ->]]; [now exists [] | now exists (x :: before)].
    + intros [[|y before] E]; simpl in E.
      * left. congruence.
      * right. injection E as -> ->. now exists before.
Qed.

(** X1.  [is_dir] answers [True] exactly for the file names whose last
    character is "/": never for the empty name, and whatever comes before
    the "/". *)
Theorem is_dir_iff_trailing_slash (info : ZipInfo) :
  is_dir info = true <-> exists before, filename info = before ++ lit "/".
Proof. unfold is_dir. apply endswith_spec. Qed.

(** ** The zip64 extra field, all cases *)

(** X2.  [zip64_extra] drops the first 4 bytes of the extra field and needs
    8 bytes of the rest for each field that is the sentinel 0xFFFFFFFF:
    with fewer it raises [AssertionError]; otherwise a field that is not the
    sentinel comes back as it is, a sentinel uncompressed size is the first
    8 bytes, a sentinel compressed size the 8 bytes after those of the
    uncompressed size, and a sentinel offset the last 8 bytes of the extra
    field. *)
Theorem zip64_extra_result (extra : bytes) (u c o : Z) :
  zip64_extra extra u c o =
  if (zip64_width u + zip64_width c + zip64_width o
      <=? length (skipn 4 extra))%nat
  then Ok (if u =? 0xFFFFFFFF then le_int (firstn 8 (skipn 4 extra)) else u,
           if c =? 0xFFFFFFFF
           then le_int (firstn 8 (skipn (zip64_width u) (skipn 4 extra)))
           else c,
           if o =? 0xFFFFFFFF
           then le_int (skipn (length extra - 8) extra) else o)
  else Raise AssertionError.
Proof.
  destruct (Nat.leb_spec (zip64_width u + zip64_width c + zip64_width o)
                         (length (skipn 4 extra))) as [Hle|Hlt].
  - now apply zip64_extra_ok.
  - now apply zip64_extra_short.
Qed.

(** ** [read]: headers that are not local file headers *)

Section ReadErrors.
Context {RT : Runtime}.

(** X3.  When the index places an entry's local header so that fewer than
    30 bytes of the map are left from there, [read] raises the [ValueError]
    "Header for <name> too small (<n> bytes, but must be at least 30
    bytes)", where n is the number of bytes that are left. *)
Theorem read_short_header self name fileinfo :
  dict_get (files self) name = Some fileinfo ->
  closed (m self) = false ->
  0 <= header_offset fileinfo ->
  len (data (m self)) < header_offset fileinfo + 30 ->
  read self name =
  Raise (ValueError
           (lit "Header for " ++ name ++ lit " too small (" ++
            str_of_int (Z.max 0 (len (data (m self)) - header_offset fileinfo)) ++
            lit " bytes, but must be at least 30 bytes)")).
Proof.
  intros Hget Hopen Hoff Hshort.
  unfold read, mmap_slice. rewrite Hget, Hopen. cbn [bind].
  pose proof (len_nonneg (data (m self))) as Hlen.
  rewrite len_slice by lia.
  replace (Z.max 0 (Z.min (header_offset fileinfo + 30) (len (data (m self)))
                    - Z.min (header_offset fileinfo) (len (data (m self)))))
    with (Z.max 0 (len (data (m self)) - header_offset fileinfo)) by lia.
  assert ((Z.max 0 (len (data (m self)) - header_offset fileinfo) <? 30) = true)
    as -> by (apply Z.ltb_lt; lia).
  reflexivity.
Qed.

(** X4.  When the 30 bytes at an entry's offset do not start with the
    signature 0x04034B50, [read] raises [AssertionError], whatever the
    compression method in those bytes is, supported or not. *)
Theorem read_bad_signature self name fileinfo
    signature compression compressed_size filename_length extra_length :
  dict_get (files self) name = Some fileinfo ->
  closed (m self) = false ->
  local_header_at (data (m self)) (header_offset fileinfo)
    signature compression compressed_size filename_length extra_length ->
  signature <> 0x4034B50 ->
  read self name = Raise AssertionError.
Proof.
  intros Hget Hopen Hhdr Hsig.
  rewrite (read_entry _ _ _ _ _ _ _ _ Hget Hopen Hhdr).
  apply Z.eqb_neq in Hsig. now rewrite Hsig.
Qed.

(** X5.  After [close()] every [read] raises a [ValueError] and returns no
    bytes, while [namelist()], [infolist()] and [in] answer as before; a
    second [close()] changes nothing. *)
Theorem closed_object_lists_but_does_not_read self name :
  (exists msg, read (close self) name = Raise (ValueError msg)) /\
  namelist (close self) = namelist self /\
  infolist (close self) = infolist self /\
  __contains__ (close self) name = __contains__ self name /\
  close (close self) = close self.
Proof.
  split; [|repeat split].
  unfold read, mmap_slice. cbn [close files m closed].
  destruct (dict_get (files self) name); cbn [bind]; eauto.
Qed.


(** X7.  Of the [ZipInfo] of a name, [read] uses the header offset and the
    compressed size and nothing else: two objects over the same map whose
    indexes give the name entries with the same offset and compressed size
    read the same, whatever checksum, uncompressed size and file name the
    entries hold. *)
Theorem read_uses_offset_and_size_only self self' name fileinfo fileinfo' :
  m self = m self' ->
  dict_get (files self) name = Some fileinfo ->
  dict_get (files self') name = Some fileinfo' ->
  header_offset fileinfo = header_offset fileinfo' ->
  compress_size fileinfo = compress_size fileinfo' ->
  read self name = read self' name.
Proof.
  intros Hm Hget Hget' Hoff Hsize.
  unfold read. rewrite Hget, Hget', Hm, Hoff, Hsize. reflexivity.
Qed.
End ReadErrors.

(** The entry "late" of [zip_astray] is placed 8 bytes before the end. *)
Lemma read_short_header_witness :
  @read codecs_only zip_astray (lit "late") =
  Raise (ValueError
           (lit "Header for " ++ lit "late" ++ lit " too small (" ++
            str_of_int (Z.max 0 (len archive_two - 190)) ++
            lit " bytes, but must be at least 30 bytes)")).
Proof.
  refine (@read_short_header codecs_only zip_astray (lit "late") info_late
            _ _ _ _).
  - reflexivity.
  - reflexivity.
  - vm_compute. discriminate.
  - vm_compute. reflexivity.
Defined.

(** The entry "dir" of [zip_astray] is placed at a central directory
    header. *)
Lemma read_bad_signature_witness :
  @read codecs_only zip_astray (lit "dir") = Raise AssertionError.
Proof.
  refine (@read_bad_signature codecs_only zip_astray (lit "dir") info_directory
            0x2014B50 0 131072 0 5 _ _ _ _).
  - reflexivity.
  - reflexivity.
  - exists 20, 20, 0, 0, 1114112, 131072. vm_compute. reflexivity.
  - discriminate.
Defined.


(** [zip_two_other] gives "a.txt" another checksum, uncompressed size and
    file name than [zip_two]. *)
Lemma read_uses_offset_and_size_only_witness :
  @read codecs_only zip_two (lit "a.txt")
  = @read codecs_only zip_two_other (lit "a.txt").
Proof.
  apply (@read_uses_offset_and_size_only codecs_only zip_two zip_two_other
           (lit "a.txt") info_a_txt info_a_other); reflexivity.
Defined.

(** ** The index and the directory *)

Lemma in_first_occurrences (l : list str) (k : str) :
  In k (first_occurrences l) <-> In k l.
Proof.
  induction l as [|x t IH]; simpl; [tauto|].
  rewrite filter_In, IH, negb_true_iff, str_eqb_neq.
  destruct (list_eq_dec Z.eq_dec x k); tauto.
Qed.

Lemma length_filter_le {A} (f : A -> bool) (l : list A) :
  (length (filter f l) <= length l)%nat.
Proof. induction l as [|a l IH]; simpl; [lia|]. destruct (f a); simpl; lia. Qed.

Lemma length_filter_all {A} (f : A -> bool) (l : list A) :
  length (filter f l) = length l -> forall a, In a l -> f a = true.
Proof.
  induction l as [|x l IH]; simpl; [tauto|].
  pose proof (length_filter_le f l).
  destruct (f x) eqn:F; simpl; intros E a [<- | Hin]; auto; try lia.
Qed.

Lemma length_first_occurrences (l : list str) :
  (length (first_occurrences l) <= length l)%nat /\
  (length (first_occurrences l) = length l <-> NoDup l).
Proof.
  induction l as [|x t [IHle IHeq]]; simpl.
  - split; [lia|]. split; [constructor | reflexivity].
  - pose proof (length_filter_le (fun k' => negb (str_eqb x k'))
                                 (first_occurrences t)) as Hf.
    split; [lia|]. split.
    + intros E. constructor.
      * intros Hin. apply in_first_occurrences in Hin.
        assert (length (filter (fun k' => negb (str_eqb x k'))
                               (first_occurrences t))
                = length (first_occurrences t)) as Hall by lia.
        apply (length_filter_all _ _ Hall) in Hin.
        rewrite str_eqb_refl in Hin. discriminate.
      * apply IHeq. lia.
    + intros ND. inversion ND as [|? ? Hnotin ND']; subst. f_equal.
      apply IHeq in ND'. rewrite <- ND'. f_equal.
      clear -Hnotin. rewrite <- in_first_occurrences in Hnotin.
      induction (first_occurrences t) as [|y l IH]; simpl; auto.
      destruct (str_eqb x y) eqn:E; simpl.
      * apply str_eqb_eq in E. subst. simpl in Hnotin. tauto.
      * f_equal. apply IH. simpl in Hnotin. tauto.
Qed.

Section IndexAndDirectory.
Context {RT : Runtime}.

Lemma headers_length m turns off end_offset infos :
  headers m turns off = Ok (end_offset, infos) -> length infos = turns.
Proof.
  revert off end_offset infos.
  induction turns as [|n IH]; intros off e infos; simpl.
  - now intros [= <- <-].
  - destruct (central_directory_header m off) as [[o1 i1]|]; simpl;
      try discriminate.
    destruct (headers m n o1) as [[o2 l]|] eqn:E; simpl; try discriminate.
    intros [= <- <-]. simpl. f_equal. eauto.
Qed.

(** X8.  For an object that parsed the directory itself, [name in z] is
    [True] exactly when a header of the central directory decodes to that
    name. *)
Theorem contains_iff_directory_names fs file mode self :
  __init__ fs file mode None = Ok self ->
  exists num_files directory_offset end_offset infos,
    end_of_central_directory (m self) = Ok (num_files, directory_offset) /\
    headers (m self) (Z.to_nat num_files) directory_offset
      = Ok (end_offset, infos) /\
    forall name, __contains__ self name = true <-> In name (map filename infos).
Proof.
  intros Hinit.
  destruct (init_files _ _ _ _ Hinit)
    as (n & off & off' & infos & He & Hh & Hf).
  exists n, off, off', infos. repeat split; auto.
  - unfold __contains__. rewrite Hf, dict_mem_In, keys_store_all. simpl.
    rewrite filter_unseen_nil. apply in_first_occurrences.
  - unfold __contains__. rewrite Hf, dict_mem_In, keys_store_all. simpl.
    rewrite filter_unseen_nil. apply in_first_occurrences.
Qed.

(** X9.  For an object that parsed the directory itself, [namelist()] and
    [infolist()] have the same length, at most the number of files that
    the end-of-central-directory record gives, and exactly that number when
    no two headers of the directory have the same name, and only then. *)
Theorem index_size_at_most_file_count fs file mode self :
  __init__ fs file mode None = Ok self ->
  exists num_files directory_offset end_offset infos,
    end_of_central_directory (m self) = Ok (num_files, directory_offset) /\
    headers (m self) (Z.to_nat num_files) directory_offset
      = Ok (end_offset, infos) /\
    length (infolist self) = length (namelist self) /\
    (length (namelist self) <= Z.to_nat num_files)%nat /\
    (length (namelist self) = Z.to_nat num_files
     <-> NoDup (map filename infos)).
Proof.
  intros Hinit.
  destruct (init_files _ _ _ _ Hinit)
    as (n & off & off' & infos & He & Hh & Hf).
  exists n, off, off', infos. split; [exact He|]. split; [exact Hh|].
  unfold namelist, infolist, keys, values. rewrite !length_map. split; auto.
  assert (length (files self)
          = length (first_occurrences (map filename infos))) as ->.
  { rewrite <- (length_map fst (files self)). fold (keys (files self)).
    rewrite Hf, keys_store_all. simpl. now rewrite filter_unseen_nil. }
  pose proof (headers_length _ _ _ _ _ Hh) as Hlen.
  pose proof (length_first_occurrences (map filename infos)) as [Hle Heq].
  rewrite length_map in Hle, Heq. rewrite Hlen in Hle, Heq. tauto.
Qed.
End IndexAndDirectory.

Lemma contains_iff_directory_names_witness :
  exists num_files directory_offset end_offset infos,
    @end_of_central_directory (m zip_dup) = Ok (num_files, directory_offset) /\
    @headers codecs_only (m zip_dup) (Z.to_nat num_files) directory_offset
      = Ok (end_offset, infos) /\
    forall name, @__contains__ zip_dup name = true
                 <-> In name (map filename infos).
Proof.
  apply (@contains_iff_directory_names codecs_only (disk archive_dup)
           (lit "example.zip") (lit "r") zip_dup).
  vm_compute. reflexivity.
Defined.

(** The directory of [archive_dup] has three headers and two names. *)
Lemma index_size_at_most_file_count_witness :
  exists num_files directory_offset end_offset infos,
    @end_of_central_directory (m zip_dup) = Ok (num_files, directory_offset) /\
    @headers codecs_only (m zip_dup) (Z.to_nat num_files) directory_offset
      = Ok (end_offset, infos) /\
    length (infolist zip_dup) = length (namelist zip_dup) /\
    (length (namelist zip_dup) <= Z.to_nat num_files)%nat /\
    (length (namelist zip_dup) = Z.to_nat num_files
     <-> NoDup (map filename infos)).
Proof.
  apply (@index_size_at_most_file_count codecs_only (disk archive_dup)
           (lit "example.zip") (lit "r") zip_dup).
  vm_compute. reflexivity.
Defined.

(** ** The end-of-central-directory records *)

Lemma rfind_from_last_at (sub s : bytes) (before : nat) (i : Z) :
  sub <> [] -> 0 <= i -> last_at sub s before ->
  rfind_from sub s i = i + Z.of_nat before.
Proof.
  intros Hsub. revert s i.
  induction before as [|b IH]; intros s i Hi [Hat Hlast].
  - destruct s as [|x t].
    + destruct sub; [congruence | discriminate Hat].
    + simpl in Hat, Hlast |- *. rewrite rfind_from_absent by exact Hlast.
      simpl. rewrite Hat. lia.
  - destruct s as [|x t].
    + destruct sub; [congruence | discriminate Hat].
    + simpl in Hat, Hlast. cbn [rfind_from].
      rewrite (IH t (i + 1)) by (try lia; split; assumption).
      destruct (0 <=? i + 1 + Z.of_nat b) eqn:E; [lia|].
      apply Z.leb_gt in E. lia.
Qed.

Lemma rfind_last_at (s sub : bytes) (before : nat) :
  sub <> [] -> last_at sub s before -> rfind s sub = Z.of_nat before.
Proof.
  intros Hsub Hlast. unfold rfind.
  now rewrite (rfind_from_last_at sub s before 0) by (auto; lia).
Qed.

(** [s[a:b]] for [0 <= a <= b]. *)
Lemma slice_range {A} (s : list A) (a b : Z) :
  0 <= a <= b ->
  slice s (Some a) (Some b) = firstn (Z.to_nat (b - a)) (skipn (Z.to_nat a) s).
Proof.
  intros Hab. unfold slice, adjust_index, len.
  destruct (a <? 0) eqn:Ea; [apply Z.ltb_lt in Ea; lia|].
  destruct (b <? 0) eqn:Eb; [apply Z.ltb_lt in Eb; lia|].
  destruct (Z.le_gt_cases a (Z.of_nat (length s))) as [Ha|Ha].
  - rewrite (Z.min_l a) by lia.
    destruct (Z.le_gt_cases b (Z.of_nat (length s))) as [Hb|Hb].
    + now rewrite Z.min_l by lia.
    + rewrite Z.min_r by lia.
      rewrite !firstn_all2; auto; rewrite length_skipn; lia.
  - rewrite !Z.min_r by lia. rewrite Z.sub_diag.
    rewrite (skipn_all2 s (n := Z.to_nat a)) by lia.
    now rewrite firstn_nil.
Qed.

Lemma starts_with_firstn (sub s : bytes) :
  starts_with sub s = true -> firstn (length sub) s = sub.
Proof.
  intros E. apply starts_with_spec in E as [after ->].
  rewrite firstn_app, Nat.sub_diag, firstn_all. simpl. apply app_nil_r.
Qed.

Section EndRecords.
Context {RT : Runtime}.

(** X10.  Without a "PK\6\7" signature in the last 22 + 65536 bytes of an
    open map, [end_of_central_directory] reads the record at the last
    "PK\5\6" of those bytes, also when an earlier one is there: the number
    of files is the 16-bit field at byte 8 of the record and the offset of
    the directory the 32-bit field at byte 16; when fewer than 22 bytes
    follow the start of that signature it raises [struct.error]. *)
Theorem eocd_is_read_at_last_signature (m : mmap) (before : nat) :
  closed m = false ->
  let end_ := skipn (length (data m) - Z.to_nat max_eocd_size) (data m) in
  let record := firstn 22 (skipn before end_) in
  last_at PK56 end_ before ->
  ~ occurs PK67 end_ ->
  end_of_central_directory m =
  if (before + 22 <=? length end_)%nat
  then Ok (le_int (firstn 2 (skipn 8 record)),
           le_int (firstn 4 (skipn 16 record)))
  else Raise struct_error.
Proof.
  intros Hopen end_ record Hlast Hno67.
  unfold end_of_central_directory, mmap_slice. rewrite Hopen. cbn [bind].
  rewrite slice_last by (unfold max_eocd_size; lia). fold end_.
  rewrite (rfind_last_at end_ PK56 before) by (auto; discriminate).
  assert ((0 <=? Z.of_nat before) = true) as -> by (apply Z.leb_le; lia).
  cbn [assert bind].
  rewrite slice_range by lia.
  replace (Z.to_nat (Z.of_nat before + 22 - Z.of_nat before)) with 22%nat by lia.
  rewrite Nat2Z.id. fold record.
  assert (length record = Nat.min 22 (length end_ - before)) as Hlen.
  { unfold record. now rewrite length_firstn, length_skipn. }
  unfold unpack. cbn [calcsize fmt_size Nat.add].
  destruct (Nat.leb_spec (before + 22) (length end_)) as [Hle|Hlt].
  - replace (Nat.eqb (length record) 22) with true
      by (symmetry; apply Nat.eqb_eq; lia).
    cbn [bind unpack_fields fmt_size].
    assert (firstn 4 record = PK56) as ->.
    { unfold record. rewrite firstn_firstn. simpl Nat.min.
      destruct Hlast as [Hat _]. now apply starts_with_firstn in Hat. }
    change (bytes_eqb PK56 PK56) with true. cbn [assert bind].
    apply rfind_absent_iff in Hno67. rewrite Hno67.
    change (negb (-1 =? -1)) with false. cbv iota.
    rewrite !skipn_skipn. reflexivity.
  - replace (Nat.eqb (length record) 22) with false
      by (symmetry; apply Nat.eqb_neq; lia).
    reflexivity.
Qed.

Lemma unpack1_Q_short (x : bytes) :
  length x <> 8%nat -> unpack1 Q x = Raise struct_error.
Proof.
  intros Hx. unfold unpack1, unpack. cbn [calcsize fmt_size Nat.add].
  apply Nat.eqb_neq in Hx. now rewrite Hx.
Qed.

(** X11.  With a "PK\6\7" signature in the last 22 + 65536 bytes of an
    open map, anywhere in them, before or after the end-of-central-directory
    record, [end_of_central_directory] does this.  When fewer than 22 bytes
    follow the start of the last "PK\5\6", or fewer than 16 bytes the start
    of the last "PK\6\7", it raises [struct.error].  Otherwise it takes the
    56 bytes at the absolute offset that the 8 bytes at byte 8 of the last
    "PK\6\7" give, whatever the end-of-central-directory record itself
    holds: with fewer than 56 bytes of the map from there it raises
    [struct.error], with 56 bytes that do not start with "PK\6\6"
    [AssertionError], and else the number of files and the offset of the
    directory are the 64-bit fields at bytes 24 and 48. *)
Theorem zip64_record_supersedes (m : mmap) (before locator : nat) :
  closed m = false ->
  let end_ := skipn (length (data m) - Z.to_nat max_eocd_size) (data m) in
  last_at PK56 end_ before ->
  last_at PK67 end_ locator ->
  let offset := le_int (firstn 8 (skipn (locator + 8) end_)) in
  let record := slice (data m) (Some offset) (Some (offset + 56)) in
  end_of_central_directory m =
  if (before + 22 <=? length end_)%nat then
    if (locator + 16 <=? length end_)%nat then
      if Nat.eqb (length record) 56 then
        if bytes_eqb (firstn 4 record) PK66
        then Ok (le_int (firstn 8 (skipn 24 record)),
                 le_int (firstn 8 (skipn 48 record)))
        else Raise AssertionError
      else Raise struct_error
    else Raise struct_error
  else Raise struct_error.
Proof.
  intros Hopen end_ Hlast Hloc offset record.
  unfold end_of_central_directory, mmap_slice. rewrite Hopen. cbn [bind].
  rewrite slice_last by (unfold max_eocd_size; lia). fold end_.
  rewrite (rfind_last_at end_ PK56 before) by (auto; discriminate).
  assert ((0 <=? Z.of_nat before) = true) as -> by (apply Z.leb_le; lia).
  cbn [assert bind].
  rewrite slice_range by lia.
  replace (Z.to_nat (Z.of_nat before + 22 - Z.of_nat before)) with 22%nat by lia.
  rewrite Nat2Z.id.
  set (eocd := firstn 22 (skipn before end_)).
  assert (length eocd = Nat.min 22 (length end_ - before)) as Hlen.
  { unfold eocd. now rewrite length_firstn, length_skipn. }
  unfold unpack at 1. cbn [calcsize fmt_size Nat.add].
  destruct (Nat.leb_spec (before + 22) (length end_)) as [Hfit|Hcut].
  2:{ replace (Nat.eqb (length eocd) 22) with false
        by (symmetry; apply Nat.eqb_neq; lia).
      reflexivity. }
  replace (Nat.eqb (length eocd) 22) with true
    by (symmetry; apply Nat.eqb_eq; lia).
  cbn [bind unpack_fields fmt_size].
  assert (firstn 4 eocd = PK56) as ->.
  { unfold eocd. rewrite firstn_firstn. simpl Nat.min.
    destruct Hlast as [Hat _]. now apply starts_with_firstn in Hat. }
  change (bytes_eqb PK56 PK56) with true. cbn [assert bind].
  rewrite (rfind_last_at end_ PK67 locator) by (auto; discriminate).
  assert ((Z.of_nat locator =? -1) = false) as -> by (apply Z.eqb_neq; lia).
  cbn [negb].
  rewrite slice_range by lia.
  replace (Z.to_nat (Z.of_nat locator + 16 - (Z.of_nat locator + 8)))
    with 8%nat by lia.
  replace (Z.to_nat (Z.of_nat locator + 8)) with (locator + 8)%nat by lia.
  destruct (Nat.leb_spec (locator + 16) (length end_)) as [Hlocfit|Hloccut].
  2:{ rewrite unpack1_Q_short by (rewrite length_firstn, length_skipn; lia).
      reflexivity. }
  rewrite unpack1_Q by (rewrite length_firstn, length_skipn; lia).
  cbn [bind]. fold offset. fold record.
  unfold unpack. cbn [calcsize fmt_size Nat.add].
  destruct (Nat.eqb (length record) 56); [|reflexivity].
  cbn [bind unpack_fields fmt_size].
  destruct (bytes_eqb (firstn 4 record) PK66); [|reflexivity].
  cbn [assert bind]. rewrite !skipn_skipn. reflexivity.
Qed.
End EndRecords.

(** [archive_decoy] has "PK\5\6" at 0 and at 69; the record at 69 is the
    one that is read. *)
Lemma eocd_is_read_at_last_signature_witness :
  @end_of_central_directory (opened archive_decoy) = Ok (1, 22).
Proof.
  refine (@eocd_is_read_at_last_signature (opened archive_decoy) 69 _ _ _).
  - reflexivity.
  - split; [vm_compute; reflexivity|].
    apply rfind_absent_iff. vm_compute. reflexivity.
  - apply rfind_absent_iff. vm_compute. reflexivity.
Defined.

(** The end record of [archive_zip64] counts 7 files at offset 999; the
    zip64 record counts 1 file at offset 0. *)
Lemma zip64_record_supersedes_witness :
  @end_of_central_directory (opened archive_zip64) = Ok (1, 0).
Proof.
  refine (@zip64_record_supersedes (opened archive_zip64) 123 103 _ _ _).
  - reflexivity.
  - split; [vm_compute; reflexivity|].
    apply rfind_absent_iff. vm_compute. reflexivity.
  - split; [vm_compute; reflexivity|].
    apply rfind_absent_iff. vm_compute. reflexivity.
Defined.

(** [archive_comment_locator] is [archive_two] with the comment "PK\6\7":
    4 bytes follow the start of the locator signature. *)
Lemma comment_with_locator_signature :
  @end_of_central_directory (opened archive_comment_locator)
  = Raise struct_error.
Proof. vm_compute. reflexivity. Qed.

(** ** Turns of the directory loop that fail, and what the others store *)

Lemma byte_val_bound (b : byte) : 0 <= byte_val b < 256.
Proof.
  unfold byte_val. pose proof (Byte.to_N_bounded b) as Hb.
  apply N.lt_succ_r in Hb. lia.
Qed.

Lemma le_int_bound (b : bytes) : 0 <= le_int b < 256 ^ Z.of_nat (length b).
Proof.
  induction b as [|x t IH]; simpl length.
  - simpl. lia.
  - cbn [le_int]. rewrite Nat2Z.inj_succ, Z.pow_succ_r by lia.
    pose proof (byte_val_bound x). lia.
Qed.

Lemma le_int_firstn_bound (k : nat) (b : bytes) :
  0 <= le_int (firstn k b) < 256 ^ Z.of_nat k.
Proof.
  pose proof (le_int_bound (firstn k b)) as Hb.
  assert (256 ^ Z.of_nat (length (firstn k b)) <= 256 ^ Z.of_nat k).
  { apply Z.pow_le_mono_r; [lia|]. rewrite length_firstn. lia. }
  lia.
Qed.

Lemma in_values_set {V} (d : dict V) k x v :
  In v (values (dict_set d k x)) -> v = x \/ In v (values d).
Proof.
  induction d as [|[k0 v0] d IH]; simpl.
  - intros [<- | []]. now left.
  - destruct (str_eqb k0 k); simpl; intros [<- | Hin]; auto.
    destruct (IH Hin); auto.
Qed.

Lemma in_values_store_all infos d v :
  In v (values (store_all infos d)) -> In v infos \/ In v (values d).
Proof.
  unfold store_all. revert d. induction infos as [|x t IH]; intros d; simpl.
  - auto.
  - intros Hin. apply IH in Hin as [Hin | Hin]; auto.
    apply in_values_set in Hin as [-> | Hin]; auto.
Qed.

Section Turns.
Context {RT : Runtime}.

Lemma failing_turn_fails_parse m num_files directory_offset k off_k infos e :
  end_of_central_directory m = Ok (num_files, directory_offset) ->
  (k < Z.to_nat num_files)%nat ->
  headers m k directory_offset = Ok (off_k, infos) ->
  central_directory_header m off_k = Raise e ->
  _read_eocd_mmap m = Raise e.
Proof.
  intros He Hlt Hk Hturn.
  apply (read_eocd_raise _ _ _ _ He).
  apply (headers_raise _ _ _ _ _ _ _ Hk Hlt Hturn).
Qed.

(** X12.  When the record counts more files than the directory has headers
    before the end of the map, so that a turn of the loop finds fewer than
    46 bytes at its offset, [_read_eocd_mmap] raises [struct.error]: the
    entries of the turns before are not returned. *)
Theorem directory_cut_short_raises
    m num_files directory_offset k off_k infos :
  closed m = false ->
  end_of_central_directory m = Ok (num_files, directory_offset) ->
  (k < Z.to_nat num_files)%nat ->
  headers m k directory_offset = Ok (off_k, infos) ->
  0 <= off_k ->
  len (data m) < off_k + 46 ->
  _read_eocd_mmap m = Raise struct_error.
Proof.
  intros Hopen He Hlt Hk Hoff Hshort.
  apply (failing_turn_fails_parse _ _ _ _ _ _ _ He Hlt Hk).
  unfold central_directory_header, mmap_slice. rewrite Hopen. cbn [bind].
  pose proof (len_slice (data m) off_k (off_k + 46) ltac:(lia) ltac:(lia))
    as Hlen.
  pose proof (len_nonneg (data m)).
  unfold unpack. cbn [calcsize fmt_size Nat.add].
  replace (Nat.eqb _ 46) with false; [reflexivity|].
  symmetry. apply Nat.eqb_neq. unfold len in *. lia.
Qed.

(** X13.  When a turn of the loop finds 46 bytes at its offset that do not
    start with "PK\1\2", [_read_eocd_mmap] raises [AssertionError]: the
    entries of the turns before are not returned. *)
Theorem wrong_directory_signature_raises
    m num_files directory_offset k off_k infos :
  closed m = false ->
  end_of_central_directory m = Ok (num_files, directory_offset) ->
  (k < Z.to_nat num_files)%nat ->
  headers m k directory_offset = Ok (off_k, infos) ->
  0 <= off_k ->
  off_k + 46 <= len (data m) ->
  firstn 4 (skipn (Z.to_nat off_k) (data m)) <> PK12 ->
  _read_eocd_mmap m = Raise AssertionError.
Proof.
  intros Hopen He Hlt Hk Hoff Hfit Hsig.
  apply (failing_turn_fails_parse _ _ _ _ _ _ _ He Hlt Hk).
  unfold central_directory_header, mmap_slice. rewrite Hopen. cbn [bind].
  rewrite slice_range by lia.
  replace (Z.to_nat (off_k + 46 - off_k)) with 46%nat by lia.
  set (header := firstn 46 (skipn (Z.to_nat off_k) (data m))).
  assert (length header = 46%nat) as Hlen.
  { unfold header. rewrite length_firstn, length_skipn. unfold len in Hfit. lia. }
  unfold unpack. cbn [calcsize fmt_size Nat.add]. rewrite Hlen.
  cbn [Nat.eqb bind unpack_fields fmt_size].
  assert (bytes_eqb (firstn 4 header) PK12 = false) as ->.
  { destruct (bytes_eqb (firstn 4 header) PK12) eqn:E; auto.
    apply bytes_eqb_eq in E. unfold header in E.
    rewrite firstn_firstn in E. simpl Nat.min in E. contradiction. }
  reflexivity.
Qed.

(** What a turn stores holds unsigned fields. *)
Lemma central_directory_header_in_range m off off' info :
  central_directory_header m off = Ok (off', info) -> in_range info.
Proof.
  unfold central_directory_header, mmap_slice.
  destruct (closed m); cbn [bind]; try discriminate.
  unfold unpack. cbn [calcsize fmt_size Nat.add].
  destruct (Nat.eqb _ 46); cbn [bind unpack_fields fmt_size];
    try discriminate.
  destruct (assert _); cbn [bind]; try discriminate.
  destruct (decode_filename _); cbn [bind]; try discriminate.
  rewrite zip64_extra_result.
  destruct (_ <=? _)%nat; cbn [bind]; try discriminate.
  repeat match goal with
         | |- context [le_int (firstn ?k ?b)] =>
             let Hb := fresh "Hb" in
             let v := fresh "v" in
             pose proof (le_int_firstn_bound k b) as Hb;
             set (v := le_int (firstn k b)) in *; clearbody v
         end.
  match goal with
  | |- context [le_int (skipn ?k ?b)] =>
      let v := fresh "v" in
      pose proof (le_int_bound (skipn k b)) as Hlast;
      assert (256 ^ Z.of_nat (length (skipn k b)) <= 256 ^ 8) as Hpow
        by (apply Z.pow_le_mono_r; [lia | rewrite length_skipn; lia]);
      set (v := le_int (skipn k b)) in *; clearbody v
  end.
  change (Z.of_nat 2) with 2 in *. change (Z.of_nat 4) with 4 in *.
  change (Z.of_nat 8) with 8 in *.
  intros E. injection E as _ <-. unfold in_range.
  cbn [CRC compress_size file_size header_offset].
  repeat match goal with
         | |- context [if ?c then _ else _] => destruct c
         end; lia.
Qed.

Lemma headers_in_range m turns off end_offset infos :
  headers m turns off = Ok (end_offset, infos) -> Forall in_range infos.
Proof.
  revert off end_offset infos.
  induction turns as [|n IH]; intros off e infos; simpl.
  - intros [= <- <-]. constructor.
  - destruct (central_directory_header m off) as [[o1 i1]|] eqn:E1; simpl;
      try discriminate.
    destruct (headers m n o1) as [[o2 l]|] eqn:E2; simpl; try discriminate.
    intros [= <- <-]. constructor; eauto.
    eapply central_directory_header_in_range; eassumption.
Qed.

(** X14.  Every entry of an index that [read_files] returns holds a
    checksum in [0, 2^32) and sizes and a header offset in [0, 2^64): no
    field is negative. *)
Theorem parsed_fields_in_range fs path index :
  read_files fs path = Ok index -> Forall in_range (values index).
Proof.
  unfold read_files. destruct (open_mmap fs path) as [m0|]; cbn [bind];
    try discriminate.
  unfold _read_eocd_mmap.
  destruct (end_of_central_directory m0) as [[n off]|]; cbn [bind];
    try discriminate.
  rewrite central_directory_headers.
  destruct (headers m0 (Z.to_nat n) off) as [[e infos]|] eqn:Hh; cbn [bind];
    try discriminate.
  intros [= <-]. apply headers_in_range in Hh.
  apply Forall_forall. intros v Hin.
  apply in_values_store_all in Hin as [Hin | []].
  rewrite Forall_forall in Hh. auto.
Qed.
End Turns.

(** [archive_overcount] has one header and counts two: the second turn
    finds the 22 bytes of the end record. *)
Lemma directory_cut_short_raises_witness :
  @_read_eocd_mmap codecs_only (opened archive_overcount) = Raise struct_error.
Proof.
  refine (@directory_cut_short_raises codecs_only (opened archive_overcount)
            2 0 1%nat 47 [info_latin] _ _ _ _ _ _).
  - reflexivity.
  - vm_compute. reflexivity.
  - vm_compute. repeat constructor.
  - vm_compute. reflexivity.
  - discriminate.
  - vm_compute. reflexivity.
Defined.

(** [archive_wrong_offset] places the directory where a local file header
    is. *)
Lemma wrong_directory_signature_raises_witness :
  @_read_eocd_mmap codecs_only (opened archive_wrong_offset)
  = Raise AssertionError.
Proof.
  refine (@wrong_directory_signature_raises codecs_only
            (opened archive_wrong_offset) 2 0 0%nat 0 [] _ _ _ _ _ _ _).
  - reflexivity.
  - vm_compute. reflexivity.
  - vm_compute. repeat constructor.
  - reflexivity.
  - discriminate.
  - vm_compute. discriminate.
  - vm_compute. discriminate.
Defined.

Lemma parsed_fields_in_range_witness :
  Forall in_range (values (files zip_two)).
Proof.
  apply (@parsed_fields_in_range codecs_only (disk archive_two)
           (lit "example.zip") (files zip_two)).
  vm_compute. reflexivity.
Defined.

(** ** The LZMA branch of [read] *)

Section Lzma.
Context {RT : Runtime}.

(** X15.  For method 14, data of fewer than 4 bytes raises [struct.error].
    Otherwise bytes 2 and 3 give the size of the filter properties, little
    endian; when the data is shorter than 4 bytes plus that size the branch
    raises [AssertionError], and when it is not, the data is its first 4
    bytes, then the properties, then the stream: the result is what lzma
    makes of the stream under the filter of the properties, and bytes 0
    and 1 play no part. *)
Theorem lzma_branch_splits_data (compressed : bytes) :
  let size := le_int (firstn 2 (skipn 2 compressed)) in
  let props := firstn (Z.to_nat size) (skipn 4 compressed) in
  let stream := skipn (4 + Z.to_nat size) compressed in
  decompress 14 compressed =
  (if (length compressed <? 4)%nat then Raise struct_error
   else if 4 + size <=? len compressed
        then filt <- lzma_decode_filter_properties props ;;
             lzma_decompress_raw filt stream
        else Raise AssertionError) /\
  (4 + size <= len compressed ->
   compressed = firstn 4 compressed ++ props ++ stream /\ len props = size).
Proof.
  intros size props stream.
  assert (0 <= size) as Hsize by apply le_int_bound.
  split.
  - unfold decompress. change (14 =? 0) with false. change (14 =? 8) with false.
    change (14 =? 14) with true. cbv iota.
    rewrite slice_to by lia. change (Z.to_nat 4) with 4%nat.
    unfold unpack. cbn [calcsize fmt_size Nat.add].
    rewrite length_firstn.
    destruct (Nat.ltb_spec (length compressed) 4) as [Hlt|Hge].
    + replace (Nat.eqb _ 4) with false; [reflexivity|].
      symmetry. apply Nat.eqb_neq. lia.
    + replace (Nat.eqb _ 4) with true by (symmetry; apply Nat.eqb_eq; lia).
      cbn [bind unpack_fields fmt_size].
      replace (firstn 2 (skipn 2 (firstn 4 compressed)))
        with (firstn 2 (skipn 2 compressed)).
      2:{ rewrite skipn_firstn_comm. simpl Nat.sub.
          now rewrite firstn_firstn. }
      fold size. destruct (4 + size <=? len compressed); [|reflexivity].
      cbn [assert bind].
      rewrite slice_range, slice_from by lia.
      replace (Z.to_nat (4 + size - 4)) with (Z.to_nat size) by lia.
      replace (Z.to_nat (4 + size)) with (4 + Z.to_nat size)%nat by lia.
      reflexivity.
  - intros Hfit. unfold len in *. split.
    + unfold props, stream.
      replace (4 + Z.to_nat size)%nat with (Z.to_nat size + 4)%nat by lia.
      rewrite <- skipn_skipn.
      now rewrite (firstn_skipn (Z.to_nat size) (skipn 4 compressed)),
                  firstn_skipn.
    + unfold props. rewrite length_firstn, length_skipn. lia.
Qed.
End Lzma.

(** ** The labels of [plot_benchmark.py] *)

(** X16.  The label of a curve ends in "Threads" for two threads or more
    and in "Thread" for fewer, zero and negative counts included. *)
Theorem curve_label_plural (zipfile : str) (threadcount : Z) :
  curve_label zipfile threadcount =
  zipfile ++ lit " - " ++ str_of_int threadcount ++
  (if 2 <=? threadcount then lit " Threads" else lit " Thread").
Proof.
  unfold curve_label. do 3 f_equal.
  unfold slice, adjust_index, len. simpl length.
  destruct (2 <=? threadcount) eqn:E.
  - apply Z.leb_le in E.
    destruct (threadcount - 1 <? 0) eqn:E'; [apply Z.ltb_lt in E'; lia|].
    replace (Z.to_nat (Z.min (threadcount - 1) (Z.of_nat 1) - 0)) with 1%nat
      by lia.
    reflexivity.
  - apply Z.leb_gt in E.
    destruct (threadcount - 1 <? 0) eqn:E'.
    + replace (Z.to_nat (Z.max 0 (threadcount - 1 + Z.of_nat 1) - 0))
        with 0%nat by lia.
      reflexivity.
    + apply Z.ltb_ge in E'.
      replace (Z.to_nat (Z.min (threadcount - 1) (Z.of_nat 1) - 0)) with 0%nat
        by lia.
      reflexivity.
Qed.

(** ** [groupby] *)

Section GroupByFacts.
Context {A K : Type} (key_eqb : K -> K -> bool).
Hypothesis key_eqb_eq : forall a b, key_eqb a b = true <-> a = b.

Lemma key_eqb_refl k : key_eqb k k = true.
Proof. now apply key_eqb_eq. Qed.

Lemma key_eqb_neq a b : key_eqb a b = false <-> a <> b.
Proof.
  rewrite <- key_eqb_eq. destruct (key_eqb a b); split; congruence.
Qed.

Lemma group_of_append_same (groups : list (K * list A)) key value :
  group_of key_eqb (append_to key_eqb groups key value) key =
  Some (match group_of key_eqb groups key with
        | Some vs => vs ++ [value]
        | None => [value]
        end).
Proof.
  induction groups as [|[k vs] g IH]; simpl.
  - now rewrite key_eqb_refl.
  - destruct (key_eqb k key) eqn:E; simpl; now rewrite E.
Qed.

Lemma group_of_append_other (groups : list (K * list A)) key key' value :
  key <> key' ->
  group_of key_eqb (append_to key_eqb groups key value) key' =
  group_of key_eqb groups key'.
Proof.
  intros N. induction groups as [|[k vs] g IH]; simpl.
  - apply key_eqb_neq in N. now rewrite N.
  - destruct (key_eqb k key) eqn:E; simpl.
    + apply key_eqb_eq in E. subst k. apply key_eqb_neq in N. now rewrite N.
    + now rewrite IH.
Qed.

Lemma group_of_fold (values : list A) (keyfunc : A -> K) groups key :
  group_of key_eqb
    (fold_left (fun g v => append_to key_eqb g (keyfunc v) v) values groups)
    key =
  match group_of key_eqb groups key,
        filter (fun v => key_eqb (keyfunc v) key) values with
  | Some vs, more => Some (vs ++ more)
  | None, [] => None
  | None, more => Some more
  end.
Proof.
  revert groups. induction values as [|v values IH]; intros groups; simpl.
  - destruct (group_of key_eqb groups key); auto. now rewrite app_nil_r.
  - rewrite IH. destruct (key_eqb (keyfunc v) key) eqn:E.
    + apply key_eqb_eq in E. subst key. rewrite group_of_append_same.
      destruct (group_of key_eqb groups (keyfunc v)); auto.
      now rewrite <- app_assoc.
    + apply key_eqb_neq in E. now rewrite group_of_append_other.
Qed.

(** X17.  [groupby] puts under a key exactly the values that [keyfunc]
    sends to that key, in the order in which [values] has them; a key that
    no value is sent to is not in the result. *)
Theorem groupby_group_is_filter (values : list A) (keyfunc : A -> K) key :
  group_of key_eqb (groupby key_eqb values keyfunc) key =
  match filter (fun v => key_eqb (keyfunc v) key) values with
  | [] => None
  | group => Some group
  end.
Proof. unfold groupby. now rewrite group_of_fold. Qed.

Lemma new_key_In seen k : new_key key_eqb seen k = false <-> In k seen.
Proof.
  unfold new_key. rewrite negb_false_iff, existsb_exists. split.
  - intros (x & Hin & E). apply key_eqb_eq in E. now subst.
  - intros Hin. exists k. split; auto. apply key_eqb_refl.
Qed.

Lemma keys_append_to (groups : list (K * list A)) key value :
  map fst (append_to key_eqb groups key value) =
  if new_key key_eqb (map fst groups) key then map fst groups ++ [key]
  else map fst groups.
Proof.
  unfold new_key.
  induction groups as [|[k vs] g IH]; simpl; auto.
  destruct (key_eqb k key) eqn:E; simpl.
  - apply key_eqb_eq in E. subst k. now rewrite key_eqb_refl.
  - rewrite IH. apply key_eqb_neq in E.
    assert (key_eqb key k = false) as -> by (apply key_eqb_neq; congruence).
    simpl. now destruct (existsb (key_eqb key) (map fst g)).
Qed.

Lemma keys_fold (values : list A) (keyfunc : A -> K) groups :
  map fst (fold_left (fun g v => append_to key_eqb g (keyfunc v) v)
                     values groups) =
  map fst groups ++
  filter (new_key key_eqb (map fst groups)) (first_keys key_eqb (map keyfunc values)).
Proof.
  revert groups. induction values as [|v values IH]; intros groups; simpl.
  - now rewrite app_nil_r.
  - rewrite IH, keys_append_to.
    destruct (new_key key_eqb (map fst groups) (keyfunc v)) eqn:N.
    + rewrite <- app_assoc. simpl. do 2 f_equal.
      rewrite <- filter_both. apply filter_ext. intros k.
      unfold new_key. rewrite existsb_app. simpl.
      rewrite orb_false_r, negb_orb. f_equal. f_equal.
      destruct (key_eqb k (keyfunc v)) eqn:E.
      * apply key_eqb_eq in E. subst. symmetry. apply key_eqb_refl.
      * symmetry. apply key_eqb_neq. apply key_eqb_neq in E. congruence.
    + f_equal. symmetry. apply filter_absorb.
      intros k Hk. destruct (key_eqb (keyfunc v) k) eqn:E; auto.
      apply key_eqb_eq in E. subst k. congruence.
Qed.

Lemma flat_append_to (groups : list (K * list A)) key value :
  Permutation (concat (map snd (append_to key_eqb groups key value)))
              (concat (map snd groups) ++ [value]).
Proof.
  induction groups as [|[k vs] g IH]; simpl.
  - reflexivity.
  - destruct (key_eqb k key); simpl.
    + rewrite <- !app_assoc. apply Permutation_app_head.
      apply Permutation_app_comm.
    + rewrite IH. now rewrite app_assoc.
Qed.

Lemma flat_fold (values : list A) (keyfunc : A -> K) groups :
  Permutation
    (concat (map snd (fold_left (fun g v => append_to key_eqb g (keyfunc v) v)
                                values groups)))
    (concat (map snd groups) ++ values).
Proof.
  revert groups. induction values as [|v values IH]; intros groups; simpl.
  - now rewrite app_nil_r.
  - rewrite IH, flat_append_to. now rewrite <- app_assoc.
Qed.

Lemma filter_new_key_nil (l : list K) : filter (new_key key_eqb []) l = l.
Proof. induction l; simpl; congruence. Qed.

Lemma NoDup_first_keys (l : list K) : NoDup (first_keys key_eqb l).
Proof.
  induction l as [|k t IH]; simpl; constructor.
  - rewrite filter_In, negb_true_iff, key_eqb_neq. tauto.
  - now apply NoDup_filter.
Qed.

(** X18.  The keys of [groupby]'s result are the keys of the values, each
    once, in the order in which [values] first has them, and the groups
    together hold every value of [values] exactly as often as [values]
    does. *)
Theorem groupby_partitions (values : list A) (keyfunc : A -> K) :
  map fst (groupby key_eqb values keyfunc)
    = first_keys key_eqb (map keyfunc values) /\
  NoDup (map fst (groupby key_eqb values keyfunc)) /\
  Permutation (concat (map snd (groupby key_eqb values keyfunc))) values.
Proof.
  assert (map fst (groupby key_eqb values keyfunc)
          = first_keys key_eqb (map keyfunc values)) as E.
  { unfold groupby. rewrite keys_fold. simpl. apply filter_new_key_nil. }
  split; [exact E|]. split.
  - rewrite E. apply NoDup_first_keys.
  - apply (flat_fold values keyfunc []).
Qed.
End GroupByFacts.

(** Six values grouped by their remainder modulo 3. *)
Lemma groupby_group_is_filter_witness :
  group_of Z.eqb (groupby Z.eqb [1; 2; 3; 4; 5; 6] (fun v => v mod 3)) 1 =
  match filter (fun v => v mod 3 =? 1) [1; 2; 3; 4; 5; 6] with
  | [] => None
  | group => Some group
  end.
Proof.
  exact (groupby_group_is_filter Z.eqb Z.eqb_eq
           [1; 2; 3; 4; 5; 6] (fun v => v mod 3) 1).
Defined.

Lemma groupby_partitions_witness :
  map fst (groupby Z.eqb [1; 2; 3; 4; 5; 6] (fun v => v mod 3))
    = first_keys Z.eqb (map (fun v => v mod 3) [1; 2; 3; 4; 5; 6]) /\
  NoDup (map fst (groupby Z.eqb [1; 2; 3; 4; 5; 6] (fun v => v mod 3))) /\
  Permutation
    (concat (map snd (groupby Z.eqb [1; 2; 3; 4; 5; 6] (fun v => v mod 3))))
    [1; 2; 3; 4; 5; 6].
Proof.
  exact (groupby_partitions Z.eqb Z.eqb_eq
           [1; 2; 3; 4; 5; 6] (fun v => v mod 3)).
Defined.

(** ** What a stored read can return *)

Lemma slice_is_infix {A} (s : list A) (start stop : option Z) :
  exists before after, s = before ++ slice s start stop ++ after.
Proof.
  unfold slice.
  set (a := match start with None => 0 | Some i => adjust_index (len s) i end).
  set (b := match stop with None => len s | Some j => adjust_index (len s) j end).
  exists (firstn (Z.to_nat a) s),
         (skipn (Z.to_nat (b - a)) (skipn (Z.to_nat a) s)).
  now rewrite !firstn_skipn.
Qed.

Lemma dict_get_In_values {V} (d : dict V) k v :
  dict_get d k = Some v -> In v (values d).
Proof.
  induction d as [|[k0 v0] d IH]; simpl; [discriminate|].
  destruct (str_eqb k0 k); [intros [= ->]; auto | auto].
Qed.

Section StoredRead.
Context {RT : Runtime}.

(** X19.  On an object that parsed the directory itself, what [read]
    returns for an entry whose local header names method 0 is a run of
    consecutive bytes of the file, at most [compress_size] of them. *)
Theorem stored_read_is_a_bounded_run_of_the_file
    fs file mode self name fileinfo
    signature compressed_size filename_length extra_length content :
  __init__ fs file mode None = Ok self ->
  dict_get (files self) name = Some fileinfo ->
  local_header_at (data (m self)) (header_offset fileinfo)
    signature 0 compressed_size filename_length extra_length ->
  read self name = Ok content ->
  (exists before after, fs file = Some (before ++ content ++ after)) /\
  len content <= compress_size fileinfo.
Proof.
  intros Hinit Hget Hhdr Hread.
  assert (closed (m self) = false /\ fs file = Some (data (m self)))
    as [Hopen Hfile].
  { revert Hinit. unfold __init__, open_mmap.
    destruct (assert _); cbn [bind]; try discriminate.
    destruct (fs file) as [b|]; cbn [bind]; try discriminate.
    destruct (len b =? 0); cbn [bind]; try discriminate.
    destruct (_read_eocd_mmap _); cbn [bind]; try discriminate.
    intros [= <-]. now split. }
  assert (in_range fileinfo) as (_ & Hsize & _ & Hoff).
  { destruct (init_files _ _ _ _ Hinit)
      as (n & off & off' & infos & _ & Hh & Hf).
    apply headers_in_range in Hh. rewrite Forall_forall in Hh. apply Hh.
    apply dict_get_In_values in Hget. rewrite Hf in Hget.
    now apply in_values_store_all in Hget as [Hin | []]. }
  assert (0 <= filename_length /\ 0 <= extra_length) as [Hfl Hxl].
  { destruct Hhdr as (v & u & t & d & c & us & Hhdr).
    unfold unpack in Hhdr. destruct (Nat.eqb _ _); [|discriminate].
    cbn [unpack_fields fmt_size] in Hhdr.
    injection Hhdr as _ _ _ _ _ _ _ _ _ <- <-.
    split; apply le_int_bound. }
  rewrite (read_entry _ _ _ _ _ _ _ _ Hget Hopen Hhdr) in Hread.
  destruct (assert _); cbn [bind] in Hread; try discriminate.
  unfold decompress in Hread. change (0 =? 0) with true in Hread.
  injection Hread as <-. split.
  - rewrite Hfile.
    destruct (slice_is_infix (data (m self))
                (Some (header_offset fileinfo + 30 + filename_length
                       + extra_length))
                (Some (header_offset fileinfo + 30 + filename_length
                       + extra_length + compress_size fileinfo)))
      as (before & after & E).
    exists before, after. now f_equal.
  - rewrite len_slice by lia. pose proof (len_nonneg (data (m self))). lia.
Qed.
End StoredRead.

Lemma stored_read_is_a_bounded_run_of_the_file_witness :
  (exists before after,
     disk archive_two (lit "example.zip")
     = Some (before ++ ascii_bytes "hi" ++ after)) /\
  len (ascii_bytes "hi") <= compress_size info_a_txt.
Proof.
  refine (@stored_read_is_a_bounded_run_of_the_file codecs_only
            (disk archive_two) (lit "example.zip") (lit "r") zip_two
            (lit "a.txt") info_a_txt 0x4034B50 0 5 0 (ascii_bytes "hi")
            _ _ _ _).
  - vm_compute. reflexivity.
  - reflexivity.
  - exists 20, 0, 0, 0, 0x11, 2. vm_compute. reflexivity.
  - vm_compute. reflexivity.
Defined.

(** ** The name under which an entry is indexed *)

Section IndexedName.
Context {RT : Runtime}.

(** The turn after [k] turns is the next entry of the whole scan. *)
Lemma headers_turn m k turns off off_k infos end_offset all :
  headers m k off = Ok (off_k, infos) ->
  (k < turns)%nat ->
  headers m turns off = Ok (end_offset, all) ->
  exists off' info rest,
    central_directory_header m off_k = Ok (off', info) /\
    all = infos ++ info :: rest.
Proof.
  revert turns off infos all.
  induction k as [|k IH]; intros turns off infos all Hk Hlt Hall.
  - injection Hk as <- <-. destruct turns as [|n]; [lia|]. simpl in Hall.
    destruct (central_directory_header m off) as [[o1 i1]|]; simpl in Hall;
      try discriminate.
    destruct (headers m n o1) as [[o2 l]|]; simpl in Hall; try discriminate.
    injection Hall as _ <-. now exists o1, i1, l.
  - destruct turns as [|n]; [lia|]. simpl in Hk, Hall.
    destruct (central_directory_header m off) as [[o1 i1]|]; simpl in Hk, Hall;
      try discriminate.
    destruct (headers m k o1) as [[o2 l]|] eqn:Hk'; simpl in Hk;
      try discriminate.
    destruct (headers m n o1) as [[o3 l']|] eqn:Hn; simpl in Hall;
      try discriminate.
    injection Hk as <- <-. injection Hall as <- <-.
    destruct (IH n o1 l l' Hk' ltac:(lia) Hn) as (off' & info & rest & Ht & ->).
    now exists off', info, rest.
Qed.

(** C9.  For a header of the central directory that a turn of the loop
    reaches, with its 46 bytes and its signature: the name bytes without
    their trailing NUL bytes are the stored name bytes up to a run of NUL
    bytes at the end, and do not end with a NUL byte; the first encoding of
    UTF-8, Windows-1252, CP437 that decodes them gives a name, and the
    index that [_read_eocd_mmap] returns has this name as a key, with an
    entry of this file name under it. *)
Theorem trailing_nul_stripped_before_decoding
    m num_files directory_offset k off_k infos crc cs us fl xl cl ho index :
  closed m = false ->
  end_of_central_directory m = Ok (num_files, directory_offset) ->
  (k < Z.to_nat num_files)%nat ->
  headers m k directory_offset = Ok (off_k, infos) ->
  central_header_at (data m) off_k crc cs us fl xl cl ho ->
  _read_eocd_mmap m = Ok index ->
  let filename_bytes :=
    slice (data m) (Some (off_k + 46)) (Some (off_k + 46 + fl)) in
  let stripped := rstrip_nul filename_bytes in
  (exists n, filename_bytes = stripped ++ repeat x00 n) /\
  (forall before, stripped <> before ++ [x00]) /\
  exists name,
    find is_some (map (fun e => decode e stripped)
                      [utf_8; windows_1252; CP437]) = Some (Some name) /\
    In name (keys index) /\
    exists info, dict_get index name = Some info /\ filename info = name.
Proof.
  intros Hopen Heocd Hlt Hk Hhdr Hindex filename_bytes stripped.
  split; [apply rstrip_nul_tail|].
  split; [apply rstrip_nul_end|].
  unfold _read_eocd_mmap in Hindex. rewrite Heocd in Hindex.
  cbn [bind] in Hindex. rewrite central_directory_headers in Hindex.
  destruct (headers m (Z.to_nat num_files) directory_offset)
    as [[end_offset all]|] eqn:Hall; cbn [bind] in Hindex; try discriminate.
  injection Hindex as <-.
  destruct (headers_turn _ _ _ _ _ _ _ _ Hk Hlt Hall)
    as (off' & info & rest & Hturn & ->).
  rewrite (central_directory_header_eq _ _ _ _ _ _ _ _ _ Hopen Hhdr) in Hturn.
  fold filename_bytes in Hturn.
  rewrite decode_filename_tries in Hturn. fold stripped in Hturn.
  destruct (find is_some
              (map (fun e => decode e stripped) [utf_8; windows_1252; CP437]))
    as [[name|]|]; cbn [bind] in Hturn; try discriminate.
  exists name. split; [reflexivity|].
  assert (filename info = name) as Hname.
  { destruct (zip64_extra _ us cs ho) as [[[u c] o]|]; cbn [bind] in Hturn;
      try discriminate. now injection Hturn as _ <-. }
  assert (In name (map filename (infos ++ info :: rest))) as Hin.
  { rewrite map_app, in_app_iff. right. left. exact Hname. }
  split.
  - rewrite keys_store_all. simpl. rewrite filter_unseen_nil.
    now apply in_first_occurrences.
  - rewrite get_store_all. unfold last_named.
    destruct (find (fun i => str_eqb (filename i) name)
                   (rev (infos ++ info :: rest))) as [i|] eqn:F.
    + exists i. split; auto. apply find_some in F as [_ F].
      now apply str_eqb_eq.
    + exfalso.
      assert (In info (rev (infos ++ info :: rest))) as Hinfo.
      { apply in_rev. rewrite rev_involutive, in_app_iff. right. now left. }
      apply (find_none _ _ F) in Hinfo. simpl in Hinfo.
      rewrite Hname, str_eqb_refl in Hinfo. discriminate Hinfo.
Qed.
End IndexedName.

(** The name of [archive_nul] is stored as "a" and two NUL bytes; the key
    of the index is "a". *)
Lemma trailing_nul_stripped_before_decoding_witness :
  (exists n, [x61; x00; x00] = rstrip_nul [x61; x00; x00] ++ repeat x00 n) /\
  (forall before, rstrip_nul [x61; x00; x00] <> before ++ [x00]) /\
  exists name,
    find is_some (map (fun e => codecs_decode e (rstrip_nul [x61; x00; x00]))
                      [utf_8; windows_1252; CP437]) = Some (Some name) /\
    In name (keys [(lit "a", info_nul)]) /\
    exists info,
      dict_get [(lit "a", info_nul)] name = Some info /\ filename info = name.
Proof.
  refine (@trailing_nul_stripped_before_decoding codecs_only
            (opened archive_nul) 1 0 0%nat 0 [] 0x11 1 1 3 0 0 100
            [(lit "a", info_nul)] _ _ _ _ _ _).
  - reflexivity.
  - vm_compute. reflexivity.
  - vm_compute. constructor.
  - reflexivity.
  - exists 20, 20, 0, 0, 0, 0, 0, 0, 0. vm_compute. reflexivity.
  - vm_compute. reflexivity.
Defined.

(** ** An LZMA entry whose window is cut *)

(** The entry "x" of [archive_lzma] has 15 bytes of data from byte 31 on.
    Over the whole archive [read] reaches lzma and returns what it gives.
    Over the first 33 bytes the local header is whole and the window holds
    2 bytes: [read] raises [struct.error] at line 281.  Over the first 39
    bytes the window holds 8 bytes, fewer than the 4 + 5 that the header
    of the data asks for: [read] raises [AssertionError] at line 282. *)
Lemma lzma_read_fails_when_window_is_cut :
  len archive_lzma = 46 /\
  header_offset info_lzma + 30 + 1 + 0 + compress_size info_lzma = 46 /\
  @read lzma_accepts (zip_lzma 46) (lit "x")
    = Ok [x00; x01; x02; x03; x04; x05] /\
  @read lzma_accepts (zip_lzma 33) (lit "x") = Raise struct_error /\
  @read lzma_accepts (zip_lzma 39) (lit "x") = Raise AssertionError /\
  @read codecs_only (zip_lzma 33) (lit "x") = Raise struct_error /\
  @read codecs_only (zip_lzma 39) (lit "x") = Raise AssertionError.
Proof. repeat split; vm_compute; reflexivity. Qed.
